(** * Smart Bus Tracking System: the backend engine of [backend/server.js]

    A shallow embedding of the in-memory location store, the telemetry
    ingestion handler, the point query, the route search with its ETA
    computation and one tick of the movement simulation, followed by the
    properties of the specification that these definitions decide.

    How the program is modelled:

    - Numbers are IEEE 754 binary64 values: the Standard Library's
      [spec_float] at precision 53 and maximal exponent 1024, whose
      operations are executable and round to nearest, ties to even.
      [parseFloat], [Number::toString], [Math.round] and [Math.max] are
      written out after the language specification.  [Math.sin],
      [Math.cos] and [Math.atan2], whose results the language leaves to the
      implementation, are parameters ([MathLib]).
    - Strings are sequences of code units in the range U+0000 to U+00FF.
    - [busLocations] and [busRoutes] are JavaScript Maps: association
      lists in insertion order, one entry per key.  The registry has
      strings for keys; the store has the [device_id] of the requests,
      which can be any truthy value of a body.
    - A handler is a function from the state of the server to the new
      state and the reply.  The body of a request is a parsed object whose
      fields are absent, null, a boolean, a number or a string.  A query
      parameter is absent, a string, an array or an object.  An
      exception is a reply with status 500.
    - The environment is explicit: [new Date()] is a clock reading passed
      in, and each [Math.random()] of a tick is a draw passed in. *)

From Stdlib Require Import ZArith Lia Bool List String Ascii DecimalString.
From Stdlib Require Import Floats.SpecFloat.
Import ListNotations.

Local Open Scope string_scope.
Local Open Scope Z_scope.

(* ================================================================== *)
(** ** Numbers *)
(* ================================================================== *)

Module Number.

Definition prec : Z := 53.
Definition emax : Z := 1024.

(** A JavaScript Number. *)
Definition number : Type := spec_float.

Definition NaN : number := S754_nan.
Definition Infinity : number := S754_infinity false.
Definition zero : number := S754_zero false.

Definition add : number -> number -> number := SFadd prec emax.
Definition sub : number -> number -> number := SFsub prec emax.
Definition mul : number -> number -> number := SFmul prec emax.
Definition div : number -> number -> number := SFdiv prec emax.
Definition sqrt : number -> number := SFsqrt prec emax.

(** The comparisons [a < b], [a <= b] and [a === b] on Numbers. *)
Definition ltb : number -> number -> bool := SFltb.
Definition leb : number -> number -> bool := SFleb.
Definition eqb : number -> number -> bool := SFeqb.

(** [a > b] is [b < a]. *)
Definition gtb (a b : number) : bool := ltb b a.

(** The values a Number can really take: canonical mantissa and exponent. *)
Definition valid (x : number) : bool := valid_binary prec emax x.

Definition isNaN (x : number) : bool :=
  match x with S754_nan => true | _ => false end.

Definition isFinite (x : number) : bool :=
  match x with S754_zero _ | S754_finite _ _ _ => true | _ => false end.

(** ToBoolean on a Number: [NaN], [+0] and [-0] are falsy. *)
Definition truthy (x : number) : bool :=
  match x with S754_nan | S754_zero _ => false | _ => true end.

(** The Number nearest to the integer [n]. *)
Definition ofZ (n : Z) : number := binary_normalize prec emax n 0 false.

(** The Number nearest to [(-1)^neg * m * 10^e10] for a natural [m]: the
    value of a decimal literal with digits [m] and decimal exponent
    [e10].  The quotient by a power of ten is rounded once, by the
    division on unnormalised operands. *)
Definition ofDecimal (neg : bool) (m : Z) (e10 : Z) : number :=
  match m with
  | Zpos p =>
      match e10 with
      | Zneg k =>
          SFdiv prec emax (S754_finite neg p 0)
                          (S754_finite false (Pos.pow 10 k) 0)
      | _ => binary_normalize prec emax (cond_Zopp neg (Zpos p * 10 ^ e10)) 0 false
      end
  | _ => S754_zero neg
  end.

(** [Math.max] on two arguments: NaN if either is NaN, and [+0] is
    larger than [-0]. *)
Definition Math_max (a b : number) : number :=
  match SFcompare a b with
  | None => NaN
  | Some Lt => b
  | Some Gt => a
  | Some Eq => match a with S754_zero true => b | _ => a end
  end.

(** [Math.round]: the nearest integer, ties towards +Infinity; a result
    of magnitude zero keeps the sign of the argument. *)
Definition Math_round (x : number) : number :=
  match x with
  | S754_finite s m e =>
      if 0 <=? e then x
      else
        let d := 2 ^ (- e) in
        let q := (2 * cond_Zopp s (Zpos m) + d) / (2 * d) in
        if q =? 0 then S754_zero s else ofZ q
  | _ => x
  end.

(** The literals of the source. *)
Definition n0 : number := zero.
Definition n0_5 : number := ofDecimal false 5 (-1).
Definition n0_001 : number := ofDecimal false 1 (-3).
Definition n2 : number := ofZ 2.
Definition n10 : number := ofZ 10.
Definition n60 : number := ofZ 60.
Definition n180 : number := ofZ 180.
Definition n6371 : number := ofZ 6371.
Definition n1 : number := ofZ 1.

(** [Math.PI], the Number nearest to pi. *)
Definition Math_PI : number := ofDecimal false 3141592653589793 (-15).

End Number.
Import Number.

(* ================================================================== *)
(** ** Strings and the conversions between strings and numbers *)
(* ================================================================== *)

(** A string is a sequence of code units; the model covers the code units
    U+0000 to U+00FF, one [ascii] each. *)
Module JSString.

(** The white space and line terminators of that range. *)
Definition isWhiteSpace (c : ascii) : bool :=
  let n := Z.of_N (N_of_ascii c) in
  ((9 <=? n) && (n <=? 13)) || (n =? 32) || (n =? 160).

Fixpoint trimStart (s : string) : string :=
  match s with
  | String c s' => if isWhiteSpace c then trimStart s' else s
  | EmptyString => s
  end.

Definition digitValue (c : ascii) : option Z :=
  let n := Z.of_N (N_of_ascii c) in
  if (48 <=? n) && (n <=? 57) then Some (n - 48) else None.

(** Consumes the decimal digits at the front of [s]: the value read on
    top of [acc], the number of digits read on top of [cnt], the rest. *)
Fixpoint readDigits (acc cnt : Z) (s : string) : Z * Z * string :=
  match s with
  | String c s' =>
      match digitValue c with
      | Some d => readDigits (10 * acc + d) (cnt + 1) s'
      | None => (acc, cnt, s)
      end
  | EmptyString => (acc, cnt, s)
  end.

Definition readSign (s : string) : bool * string :=
  match s with
  | String "-" s' => (true, s')
  | String "+" s' => (false, s')
  | _ => (false, s)
  end.

(** The value of an ExponentPart at the front of [s]; 0 when there is
    none, or when its digits are missing. *)
Definition readExponent (s : string) : Z :=
  match s with
  | String c s' =>
      if Ascii.eqb c "e" || Ascii.eqb c "E" then
        let '(neg, s'') := readSign s' in
        let '(v, cnt, _) := readDigits 0 0 s'' in
        if cnt =? 0 then 0 else cond_Zopp neg v
      else 0
  | EmptyString => 0
  end.

(** The Number denoted by the longest prefix of [s] that is a
    StrDecimalLiteral, NaN when no prefix is one. *)
Definition parseDecimal (s : string) : number :=
  let '(neg, s1) := readSign s in
  if prefix "Infinity" s1 then S754_infinity neg
  else
    let '(ip, ic, s2) := readDigits 0 0 s1 in
    let '(m, fc, s3) :=
      match s2 with
      | String "." s2' => readDigits ip 0 s2'
      | _ => (ip, 0, s2)
      end in
    if (ic =? 0) && (fc =? 0) then NaN
    else ofDecimal neg m (readExponent s3 - fc).

Definition decimalDigits (n : Z) : string :=
  NilZero.string_of_uint (N.to_uint (Z.to_N n)).

Fixpoint zeros (n : nat) : string :=
  match n with
  | O => ""
  | S n' => String "0" (zeros n')
  end.

(** [m * 2^e / 10^p] as a fraction of naturals. *)
Definition scaled (m : positive) (e p : Z) : Z * Z :=
  (Zpos m * 2 ^ Z.max e 0 * 10 ^ Z.max (- p) 0,
   2 ^ Z.max (- e) 0 * 10 ^ Z.max p 0).

Definition roundTrips (x : number) (s p : Z) : bool :=
  (0 <? s) && SFeqb (ofDecimal false s p) x.

(** The digits [s] and the decimal exponent [p] of the shortest decimal
    that denotes the positive Number [x = m * 2^e], the nearest to [x]
    when two are as short; the search goes down from the exponent [p]. *)
Fixpoint shortest (fuel : nat) (x : number) (m : positive) (e p : Z) : Z * Z :=
  match fuel with
  | O => (0, 0)
  | S fuel' =>
      let '(num, den) := scaled m e p in
      let lo := num / den in
      let hi := lo + 1 in
      match roundTrips x lo p, roundTrips x hi p with
      | true, true =>
          (match 2 * num ?= (2 * lo + 1) * den with
           | Lt => lo
           | Gt => hi
           | Eq => if Z.even lo then lo else hi
           end, p)
      | true, false => (lo, p)
      | false, true => (hi, p)
      | false, false => shortest fuel' x m e (p - 1)
      end
  end.

Definition len (s : string) : Z := Z.of_nat (String.length s).

(** Number::toString in radix 10. *)
Definition Number_toString (x : number) : string :=
  match x with
  | S754_nan => "NaN"
  | S754_zero _ => "0"
  | S754_infinity s => if s then "-Infinity" else "Infinity"
  | S754_finite sg m e =>
      let p0 := (Zpos (digits2_pos m) + e) * 30103 / 100000 + 2 in
      let '(s, p) := shortest 30 (S754_finite false m e) m e p0 in
      let ds := decimalDigits s in
      let k := len ds in
      let n := p + k in
      let body :=
        if (k <=? n) && (n <=? 21) then
          append ds (zeros (Z.to_nat (n - k)))
        else if (0 <? n) && (n <=? 21) then
          append (substring 0 (Z.to_nat n) ds)
                 (append "." (substring (Z.to_nat n) (Z.to_nat (k - n)) ds))
        else if (-6 <? n) && (n <=? 0) then
          append "0." (append (zeros (Z.to_nat (- n))) ds)
        else
          let mant :=
            if k =? 1 then ds
            else append (substring 0 1 ds)
                        (append "." (substring 1 (Z.to_nat (k - 1)) ds)) in
          append mant
                 (append "e" (append (if n - 1 <? 0 then "-" else "+")
                                     (decimalDigits (Z.abs (n - 1))))) in
      if sg then append "-" body else body
  end.

(** [String.prototype.toLowerCase] on the modelled range: the letters
    A-Z and the accented capitals U+00C0 to U+00DE, the multiplication
    sign U+00D7 apart. *)
Definition toLowerChar (c : ascii) : ascii :=
  let n := Z.of_N (N_of_ascii c) in
  if ((65 <=? n) && (n <=? 90))
     || ((192 <=? n) && (n <=? 222) && negb (n =? 215))
  then ascii_of_N (Z.to_N (n + 32)) else c.

Fixpoint toLowerCase (s : string) : string :=
  match s with
  | String c s' => String (toLowerChar c) (toLowerCase s')
  | EmptyString => EmptyString
  end.

(** [s.includes(sub)]: [sub] occurs in [s] as a substring. *)
Fixpoint includes (sub s : string) : bool :=
  prefix sub s
  || match s with
     | String _ s' => includes sub s'
     | EmptyString => false
     end.

End JSString.
Import JSString.

(** The values a field of a JSON request body can hold (objects and
    arrays apart); [VUndefined] is an absent field. *)
Inductive value : Type :=
  | VUndefined
  | VNull
  | VBool (b : bool)
  | VNumber (x : number)
  | VString (s : string).

Definition ToString (v : value) : string :=
  match v with
  | VUndefined => "undefined"
  | VNull => "null"
  | VBool true => "true"
  | VBool false => "false"
  | VNumber x => Number_toString x
  | VString s => s
  end.

(** [value_eqb a b]: [a] and [b] are the same value.  When one of the
    two is a string, or is truthy, this is what [===], [Map] and
    [Array.prototype.includes] compute (they part ways on NaN and on
    zeros of opposite sign only); the program compares no other pairs.
    Two valid Numbers are the same when their representations are. *)
Definition number_same (x y : number) : bool :=
  match x, y with
  | S754_zero s, S754_zero s' => Bool.eqb s s'
  | S754_infinity s, S754_infinity s' => Bool.eqb s s'
  | S754_nan, S754_nan => true
  | S754_finite s m e, S754_finite s' m' e' =>
      Bool.eqb s s' && Pos.eqb m m' && Z.eqb e e'
  | _, _ => false
  end.

Definition value_eqb (a b : value) : bool :=
  match a, b with
  | VUndefined, VUndefined | VNull, VNull => true
  | VBool x, VBool y => Bool.eqb x y
  | VNumber x, VNumber y => number_same x y
  | VString s, VString t => String.eqb s t
  | _, _ => false
  end.

(** [!v]: [undefined], [null], [false], a zero, NaN and the empty string
    are falsy. *)
Definition falsy (v : value) : bool :=
  match v with
  | VUndefined | VNull => true
  | VBool b => negb b
  | VNumber x => negb (truthy x)
  | VString s => String.eqb s ""
  end.

(** The global [parseFloat]: the argument is converted to a string, its
    leading white space is dropped, and the longest decimal literal at
    its front is read. *)
Definition parseFloat (v : value) : number :=
  parseDecimal (trimStart (ToString v)).

(* ================================================================== *)
(** ** The data model *)
(* ================================================================== *)

(** [new Date()]: a clock reading, in milliseconds since the epoch.  The
    source stores its ISO-8601 rendering, which is a function of it. *)
Definition Timestamp : Type := Z.

Inductive Status : Type := active | stopped.

Definition Status_eqb (a b : Status) : bool :=
  match a, b with
  | active, active | stopped, stopped => true
  | _, _ => false
  end.

Module Stop.
Record t : Type := mk { name : string; lat : number; lon : number }.
End Stop.

Module Route.
Record t : Type :=
  mk { id : string; name : string; buses : list string; stops : list Stop.t }.
End Route.

Module Location.
Record t : Type :=
  mk { device_id : value;
       lat : number;
       lon : number;
       speed : number;
       route_id : option string;
       updated : Timestamp;
       status : Status }.
End Location.

(** What a [Map] needs of its keys: to tell whether two are the same.
    The route registry has strings for keys; the location store has
    whatever truthy [device_id] a request carried. *)
Class Key (K : Type) : Type := key_eqb : K -> K -> bool.

#[export] Instance string_Key : Key string := String.eqb.
#[export] Instance value_Key : Key value := value_eqb.

(** The comparison of keys decides whether they are equal. *)
Class KeyLaws (K : Type) `{Key K} : Prop :=
  key_eqb_eq : forall a b : K, key_eqb a b = true <-> a = b.

(** A JavaScript [Map]: the entries in insertion order, one per key. *)
Module JSMap.
Section WithValue.
Context {K V : Type} `{Key K}.

Definition t : Type := list (K * V).

Definition empty : t := [].

Fixpoint get (k : K) (m : t) : option V :=
  match m with
  | [] => None
  | (k', v) :: m' => if key_eqb k' k then Some v else get k m'
  end.

(** [set] replaces the value of a present key where it stands and
    appends an absent key. *)
Fixpoint set (k : K) (v : V) (m : t) : t :=
  match m with
  | [] => [(k, v)]
  | (k', v') :: m' =>
      if key_eqb k' k then (k', v) :: m' else (k', v') :: set k v m'
  end.

Definition entries (m : t) : list (K * V) := m.
Definition values (m : t) : list V := map snd m.
Definition keys (m : t) : list K := map fst m.
End WithValue.
Arguments t K V : clear implicits.
End JSMap.

(** The two maps the server owns. *)
Record Server : Type :=
  mkServer { busLocations : JSMap.t value Location.t;
             busRoutes : JSMap.t string Route.t }.

Definition sampleRoutes : list Route.t :=
  [ Route.mk "ROUTE_001" "City Center - Airport" ["BUS_101"; "BUS_102"]
      [ Stop.mk "City Center" (ofDecimal false 111563 (-4)) (ofDecimal false 775932 (-4));
        Stop.mk "Main Market" (ofDecimal false 111663 (-4)) (ofDecimal false 776032 (-4));
        Stop.mk "University" (ofDecimal false 111763 (-4)) (ofDecimal false 776132 (-4));
        Stop.mk "Airport" (ofDecimal false 111863 (-4)) (ofDecimal false 776232 (-4)) ];
    Route.mk "ROUTE_002" "Railway Station - Tech Park" ["BUS_201"; "BUS_202"]
      [ Stop.mk "Railway Station" (ofDecimal false 111463 (-4)) (ofDecimal false 775832 (-4));
        Stop.mk "Shopping Mall" (ofDecimal false 111513 (-4)) (ofDecimal false 775932 (-4));
        Stop.mk "Hospital" (ofDecimal false 111613 (-4)) (ofDecimal false 776032 (-4));
        Stop.mk "Tech Park" (ofDecimal false 111713 (-4)) (ofDecimal false 776132 (-4)) ] ].

(** [route.stops[i]]; reading past the end yields [undefined], whose
    fields cannot be read. *)
Definition firstStop (route : Route.t) : option Stop.t := hd_error (Route.stops route).

Definition lastStop (route : Route.t) : option Stop.t :=
  nth_error (Route.stops route) (List.length (Route.stops route) - 1).

(** The start-up loop over [sampleRoutes]: every route is registered and
    every bus of it is placed at the first stop, at speed 0 and stopped.
    [clock busId] is the clock reading when the record of [busId] is
    built.  A route without stops makes the loop throw: [None]. *)
Definition seedBus (clock : string -> Timestamp) (route : Route.t) (first : Stop.t)
    (locations : JSMap.t value Location.t) (busId : string)
    : JSMap.t value Location.t :=
  JSMap.set (VString busId)
    (Location.mk (VString busId) (Stop.lat first) (Stop.lon first) n0
       (Some (Route.id route)) (clock busId) stopped)
    locations.

Definition seedRoute (clock : string -> Timestamp) (st : option Server) (route : Route.t)
    : option Server :=
  match st with
  | None => None
  | Some st =>
      let routes := JSMap.set (Route.id route) route (busRoutes st) in
      match Route.buses route, firstStop route with
      | [], _ => Some (mkServer (busLocations st) routes)
      | _ :: _, None => None
      | buses, Some first =>
          Some (mkServer (fold_left (seedBus clock route first) buses (busLocations st))
                         routes)
      end
  end.

Definition initialise (clock : string -> Timestamp) (routes : list Route.t) : option Server :=
  fold_left (seedRoute clock) routes (Some (mkServer JSMap.empty JSMap.empty)).

(** The state of the server when it starts to listen. *)
Definition initialServer (clock : string -> Timestamp) : Server :=
  match initialise clock sampleRoutes with
  | Some st => st
  | None => mkServer JSMap.empty JSMap.empty
  end.

(* ================================================================== *)
(** ** Distance and ETA *)
(* ================================================================== *)

(** The functions of [Math] whose results the language leaves to the
    implementation. *)
Record MathLib : Type :=
  mkMath { Math_sin : number -> number;
           Math_cos : number -> number;
           Math_atan2 : number -> number -> number }.

Section GeoMath.
Variable M : MathLib.

(** The haversine distance in kilometres. *)
Definition calculateDistance (lat1 lon1 lat2 lon2 : number) : number :=
  let R := n6371 in
  let dLat := div (mul (sub lat2 lat1) Math_PI) n180 in
  let dLon := div (mul (sub lon2 lon1) Math_PI) n180 in
  let a :=
    add (mul (Math_sin M (div dLat n2)) (Math_sin M (div dLat n2)))
        (mul (mul (mul (Math_cos M (div (mul lat1 Math_PI) n180))
                       (Math_cos M (div (mul lat2 Math_PI) n180)))
                  (Math_sin M (div dLon n2)))
             (Math_sin M (div dLon n2))) in
  let c := mul n2 (Math_atan2 M (sqrt a) (sqrt (sub n1 a))) in
  mul R c.

(** The rounded number of minutes to the destination at [speed]. *)
Definition etaMinutes (currentLat currentLon destLat destLon speed : number) : number :=
  let distance := calculateDistance currentLat currentLon destLat destLon in
  let etaHours := div distance speed in
  Math_round (mul etaHours n60).

Definition calculateETA (currentLat currentLon destLat destLon speed : number) : string :=
  if eqb speed n0 then "Stopped"
  else
    let etaMinutes := etaMinutes currentLat currentLon destLat destLon speed in
    if gtb etaMinutes n0 then append (Number_toString etaMinutes) " min"
    else "Arrived".

End GeoMath.

(* ================================================================== *)
(** ** The request handlers *)
(* ================================================================== *)

(** What a handler sends: a JSON body with status 200, or an error body
    [{ error }] with another status. *)
Inductive Reply (A : Type) : Type :=
  | Ok (body : A)
  | Error (code : Z) (error : string).
Arguments Ok {A} body.
Arguments Error {A} code error.

(** The body of [POST /api/locations]; every field is a JSON value or
    absent. *)
Record LocationBody : Type :=
  mkBody { body_device_id : value;
           body_lat : value;
           body_lon : value;
           body_speed : value }.

Definition isUndefined (v : value) : bool :=
  match v with VUndefined => true | _ => false end.

(** [!device_id]. *)
Definition missingId (device_id : value) : bool := falsy device_id.

(** [x || 0] on a Number. *)
Definition orZero (x : number) : number := if truthy x then x else n0.

(** The first route, in registry order, whose buses include
    [device_id]; only a string is the same value as a bus of a route. *)
Fixpoint findRoute (device_id : value) (routes : list (string * Route.t)) : option string :=
  match routes with
  | [] => None
  | (id, route) :: rest =>
      if existsb (fun bus => value_eqb (VString bus) device_id) (Route.buses route)
      then Some id
      else findRoute device_id rest
  end.

Definition statusOfSpeed (parsedSpeed : number) : Status :=
  if gtb parsedSpeed n0 then active else stopped.

Definition missingFields : string := "Missing required fields: device_id, lat, lon".
Definition invalidCoordinates : string := "Invalid latitude or longitude values".

(** What the [try] block of [POST /api/locations] does with the fields
    of the body; [now] is the clock reading of the request.  On the
    values of [value] none of its steps throws. *)
Definition postLocation (now : Timestamp) (body : LocationBody) (st : Server)
    : Server * Reply Location.t :=
  let device_id := body_device_id body in
  if missingId device_id || isUndefined (body_lat body) || isUndefined (body_lon body)
  then (st, Error 400 missingFields)
  else
    let parsedLat := parseFloat (body_lat body) in
    let parsedLon := parseFloat (body_lon body) in
    let parsedSpeed := orZero (parseFloat (body_speed body)) in
    if isNaN parsedLat || isNaN parsedLon
    then (st, Error 400 invalidCoordinates)
    else
      let routeId := findRoute device_id (JSMap.entries (busRoutes st)) in
      let locationData :=
        Location.mk device_id parsedLat parsedLon parsedSpeed routeId now
                    (statusOfSpeed parsedSpeed) in
      (mkServer (JSMap.set device_id locationData (busLocations st)) (busRoutes st),
       Ok locationData).

(** [POST /api/locations] on [req.body]; [None] is a request whose
    [req.body] is [undefined], no body having been parsed: reading its
    fields throws, and the [catch] answers 500 with nothing written. *)
Definition postLocationRequest (now : Timestamp) (reqBody : option LocationBody)
    (st : Server) : Server * Reply Location.t :=
  match reqBody with
  | Some body => postLocation now body st
  | None => (st, Error 500 "Internal server error")
  end.

(** [GET /api/locations/:device_id]; a route parameter is a string. *)
Definition getLocation (device_id : string) (st : Server) : Reply Location.t :=
  match JSMap.get (VString device_id) (busLocations st) with
  | Some location => Ok location
  | None => Error 404 "Bus not found"
  end.

(** [GET /api/locations]. *)
Definition getLocations (st : Server) : list Location.t :=
  JSMap.values (busLocations st).

Module BusResult.
Record t : Type :=
  mk { id : string; route : string; location : option Location.t; eta : string }.
End BusResult.

Module RouteResult.
Record t : Type :=
  mk { route_id : string;
       route_name : string;
       buses : list BusResult.t;
       stops : list Stop.t }.
End RouteResult.

(** A parameter of [req.query]: a string, or, when the query string
    repeats a name or writes it with brackets, an array or an object. *)
#[local] Set Warnings "-register-all".
Inductive QueryValue : Type :=
  | QString (s : string)
  | QArray (items : list QueryValue)
  | QObject (fields : list (string * QueryValue)).
#[local] Set Warnings "register-all".

(** [!q]: an absent parameter and the empty string are falsy. *)
Definition missingParam (q : option QueryValue) : bool :=
  match q with
  | None | Some (QString "") => true
  | Some _ => false
  end.

(** [q.toLowerCase()]: a string has the method; an array or an object
    has none that can be called, and the call throws: [None]. *)
Definition lowerCased (q : QueryValue) : option string :=
  match q with
  | QString s => Some (toLowerCase s)
  | QArray _ | QObject _ => None
  end.

(** [stopNames.some(name => name.includes(q.toLowerCase()))]: without a
    name the callback never runs; with one it runs, and calls
    [q.toLowerCase()], at the first name. *)
Definition someIncludes (q : QueryValue) (stopNames : list string) : option bool :=
  match stopNames with
  | [] => Some false
  | _ :: _ =>
      match lowerCased q with
      | Some sub => Some (existsb (fun name => includes sub name) stopNames)
      | None => None
      end
  end.

(** The filter of the search: some stop name contains [from] and some
    stop name contains [to], all in lower case; [to] is looked at only
    when [from] was found. *)
Definition routeMatches (from to : QueryValue) (route : Route.t) : option bool :=
  let stopNames := map (fun stop => toLowerCase (Stop.name stop)) (Route.stops route) in
  match someIncludes from stopNames with
  | Some true => someIncludes to stopNames
  | answer => answer
  end.

(** [Array.prototype.filter] with a callback that can throw. *)
Fixpoint filterThrowing {A : Type} (keep : A -> option bool) (l : list A)
    : option (list A) :=
  match l with
  | [] => Some []
  | x :: l' =>
      match keep x with
      | Some b =>
          match filterThrowing keep l' with
          | Some kept => Some (if b then x :: kept else kept)
          | None => None
          end
      | None => None
      end
  end.

Section Search.
Variable M : MathLib.

(** The ETA of a bus to the last stop of its route; a route without
    stops has no last stop to read. *)
Definition busResult (st : Server) (route : Route.t) (busId : string)
    : option BusResult.t :=
  match JSMap.get (VString busId) (busLocations st) with
  | Some location =>
      match lastStop route with
      | Some dest =>
          Some (BusResult.mk busId (Route.name route) (Some location)
                  (calculateETA M (Location.lat location) (Location.lon location)
                     (Stop.lat dest) (Stop.lon dest) (Location.speed location)))
      | None => None
      end
  | None => Some (BusResult.mk busId (Route.name route) None "Unknown")
  end.

Fixpoint traverse {A B : Type} (f : A -> option B) (l : list A) : option (list B) :=
  match l with
  | [] => Some []
  | x :: l' =>
      match f x, traverse f l' with
      | Some y, Some ys => Some (y :: ys)
      | _, _ => None
      end
  end.

Definition routeResult (st : Server) (route : Route.t) : option RouteResult.t :=
  match traverse (busResult st route) (Route.buses route) with
  | Some routeBuses =>
      Some (RouteResult.mk (Route.id route) (Route.name route) routeBuses
              (Route.stops route))
  | None => None
  end.

(** [GET /api/search].  The handler catches nothing: an exception is
    answered by the framework with status 500 (and an error page, named
    here by its status text). *)
Definition search (from to : option QueryValue) (st : Server)
    : Reply (list RouteResult.t) :=
  match from, to with
  | Some from', Some to' =>
      if missingParam from || missingParam to
      then Error 400 "Missing from or to parameter"
      else
        match filterThrowing (routeMatches from' to') (JSMap.values (busRoutes st)) with
        | Some matchingRoutes =>
            match traverse (routeResult st) matchingRoutes with
            | Some results => Ok results
            | None => Error 500 "Internal Server Error"
            end
        | None => Error 500 "Internal Server Error"
        end
  | _, _ => Error 400 "Missing from or to parameter"
  end.
End Search.

(* ================================================================== *)
(** ** The movement simulation *)
(* ================================================================== *)

(** What one visit of the simulation reads from its environment: three
    results of [Math.random()], in the order of the calls, and the clock. *)
Record Draw : Type :=
  mkDraw { latRandom : number;
           lonRandom : number;
           speedRandom : number;
           clock : Timestamp }.

(** [Math.random()] returns a Number in the interval from 0 included to
    1 excluded. *)
Definition isRandom (r : number) : bool := valid r && leb n0 r && ltb r n1.

Definition goodDraw (d : Draw) : bool :=
  isRandom (latRandom d) && isRandom (lonRandom d) && isRandom (speedRandom d).

(** The offset added to a coordinate and the offset added to the speed. *)
Definition coordinateChange (r : number) : number := mul (sub r n0_5) n0_001.
Definition speedChange (r : number) : number := mul (sub r n0_5) n10.

(** The callback of [busLocations.forEach] in [simulateBusMovement]. *)
Definition moveBus (d : Draw) (location : Location.t) : Location.t :=
  match Location.status location with
  | active =>
      let latChange := coordinateChange (latRandom d) in
      let lonChange := coordinateChange (lonRandom d) in
      Location.mk (Location.device_id location)
                  (add (Location.lat location) latChange)
                  (add (Location.lon location) lonChange)
                  (Math_max n0 (add (Location.speed location) (speedChange (speedRandom d))))
                  (Location.route_id location)
                  (clock d)
                  (Location.status location)
  | stopped => location
  end.

(** One firing of the interval timer; [env busId] is what the visit of
    the key [busId] reads. *)
Definition tickLocations (env : value -> Draw) (m : JSMap.t value Location.t)
    : JSMap.t value Location.t :=
  map (fun '(busId, location) => (busId, moveBus (env busId) location)) m.

Definition simulateBusMovement (env : value -> Draw) (st : Server) : Server :=
  mkServer (tickLocations env (busLocations st)) (busRoutes st).

(* ================================================================== *)
(** ** Runs of the server *)
(* ================================================================== *)

(** A number of a JSON body is a valid Number and is not NaN. *)
Definition valueOk (v : value) : bool :=
  match v with
  | VNumber x => valid x && negb (isNaN x)
  | _ => true
  end.

Definition bodyOk (b : LocationBody) : bool :=
  valueOk (body_device_id b) && valueOk (body_lat b) && valueOk (body_lon b)
  && valueOk (body_speed b).

(** The operations that can write the store. *)
Inductive Event : Type :=
  | Ingest (now : Timestamp) (body : LocationBody)
  | Tick (env : value -> Draw).

Definition eventOk (e : Event) : Prop :=
  match e with
  | Ingest _ body => bodyOk body = true
  | Tick env => forall busId, goodDraw (env busId) = true
  end.

Definition step (st : Server) (e : Event) : Server :=
  match e with
  | Ingest now body => fst (postLocation now body st)
  | Tick env => simulateBusMovement env st
  end.

Definition run (st : Server) (es : list Event) : Server := fold_left step es st.

(** The states the server can be in. *)
Inductive reachable : Server -> Prop :=
  | reachable_start : forall clock, reachable (initialServer clock)
  | reachable_step : forall st e, reachable st -> eventOk e -> reachable (step st e).

(* ================================================================== *)
(** ** The vocabulary of the specification *)
(* ================================================================== *)

(** [InvalidCoordinate]: either of the two rejections of an ingest. *)
Definition InvalidCoordinate (r : Reply Location.t) : Prop :=
  r = Error 400 missingFields \/ r = Error 400 invalidCoordinates.

(** [NotFound]: the rejection of a point query. *)
Definition NotFound (r : Reply Location.t) : Prop := r = Error 404 "Bus not found".

(** [ingest] and [get_one] of the specification. *)
Definition ingest (now : Timestamp) (vehicle_id : string) (lat lon speed : value)
    (st : Server) : Server * Reply Location.t :=
  postLocation now (mkBody (VString vehicle_id) lat lon speed) st.

Definition get_one : string -> Server -> Reply Location.t := getLocation.

(** The record an accepted ingest builds. *)
Definition recordOf (now : Timestamp) (vehicle_id : string) (lat lon speed : value)
    (st : Server) : Location.t :=
  Location.mk (VString vehicle_id) (parseFloat lat) (parseFloat lon)
    (orZero (parseFloat speed))
    (findRoute (VString vehicle_id) (JSMap.entries (busRoutes st))) now
    (statusOfSpeed (orZero (parseFloat speed))).

(** The record an accepted request builds from its body. *)
Definition recordOfBody (now : Timestamp) (body : LocationBody) (st : Server)
    : Location.t :=
  Location.mk (body_device_id body) (parseFloat (body_lat body))
    (parseFloat (body_lon body)) (orZero (parseFloat (body_speed body)))
    (findRoute (body_device_id body) (JSMap.entries (busRoutes st))) now
    (statusOfSpeed (orZero (parseFloat (body_speed body)))).

(** Decimal literals of request bodies and examples. *)
Definition dec (m e10 : Z) : number := ofDecimal false m e10.

(** The values of [Math.sin], [Math.cos] and [Math.atan2] that do not
    depend on the implementation: the sine of a zero is that zero and the
    sine of the Number nearest to pi/2 is 1, the cosine of a zero is 1,
    and the arc tangent of y / +0 for a positive y is the Number nearest
    to pi/2.  Elsewhere the table holds NaN; the examples do not go
    there. *)
Definition specialMath : MathLib :=
  mkMath
    (fun x =>
       match x with
       | S754_zero _ => x
       | _ => if SFeqb x (div Math_PI n2) then n1 else NaN
       end)
    (fun x => match x with S754_zero _ => n1 | _ => NaN end)
    (fun y x =>
       match x with
       | S754_zero false => if gtb y n0 then div Math_PI n2 else NaN
       | _ => NaN
       end).

(** A clock, a server and an environment for the examples. *)
Definition exampleClock : string -> Timestamp := fun _ => 1000.
Definition exampleServer : Server := initialServer exampleClock.

(** The draws of a tick whose every [Math.random()] returns 0. *)
Definition zeroDraws (now : Timestamp) : value -> Draw :=
  fun _ => mkDraw zero zero zero now.

(** The vehicles of the pre-seeded routes. *)
Definition seededBuses : list string := flat_map Route.buses sampleRoutes.

(** What [routeMatches] answers on two strings, where nothing throws. *)
Definition stringsMatch (from to : string) (route : Route.t) : bool :=
  match routeMatches (QString from) (QString to) route with
  | Some answer => answer
  | None => false
  end.

(** [sub] occurs in [s]: some characters, then [sub], then the rest. *)
Definition occursIn (sub s : string) : Prop :=
  exists before after, s = append before (append sub after).

(** The magnitude of the change from [old] to [new]. *)
Definition changeOf (old new : number) : number := SFabs (sub new old).


(* ================================================================== *)
(** ** Rounding: the vocabulary of the proofs *)
(* ================================================================== *)

(** [shr_rel k a b]: the shift record [b] is [a] shifted right by [k]
    bits, and is exact when [a] was and no set bit was shifted out. *)
Definition shr_rel (k : Z) (a b : shr_record) : Prop :=
  shr_m b = shr_m a / 2 ^ k
  /\ 0 <= shr_m b
  /\ (shr_m a mod 2 ^ k = 0 -> shr_r a = false -> shr_s a = false ->
      shr_r b = false /\ shr_s b = false).

(** [m1 * 2^e1 <= m2 * 2^e2], on integers. *)
Definition le_val (m1 e1 m2 e2 : Z) : Prop :=
  m1 * 2 ^ (e1 - Z.min e1 e2) <= m2 * 2 ^ (e2 - Z.min e1 e2).

(** [x] is a zero or a valid finite Number of sign [s] and of magnitude
    at most [mb * 2^eb]. *)
Definition below (s : bool) (mb : positive) (eb : Z) (x : number) : Prop :=
  x = S754_zero s
  \/ exists m e, x = S754_finite s m e /\ bounded prec emax m e = true
                 /\ (e < eb \/ (e = eb /\ Zpos m <= Zpos mb)).

(* ================================================================== *)
(** ** The other handlers and helpers of the server *)
(* ================================================================== *)

Module Health.
Record t : Type := mk { status : string; timestamp : Timestamp; totalBuses : Z }.
End Health.

(** [GET /api/health]; [busLocations.size] counts the entries. *)
Definition getHealth (now : Timestamp) (st : Server) : Health.t :=
  Health.mk "OK" now (Z.of_nat (List.length (busLocations st))).

Module RouteBus.
Record t : Type := mk { id : string; location : option Location.t }.
End RouteBus.

Module RouteView.
Record t : Type :=
  mk { id : string;
       name : string;
       buses : list RouteBus.t;
       stops : list Stop.t }.
End RouteView.

(** [GET /api/routes]: every route with its buses joined to their
    current record, [null] for a bus without one. *)
Definition getRoutes (st : Server) : list RouteView.t :=
  map (fun route =>
         RouteView.mk (Route.id route) (Route.name route)
           (map (fun busId =>
                   RouteBus.mk busId (JSMap.get (VString busId) (busLocations st)))
                (Route.buses route))
           (Route.stops route))
      (JSMap.values (busRoutes st)).

Module NetInterface.
Record t : Type := mk { family : string; internal : bool; address : string }.
End NetInterface.

(** The inner loop of [getLocalIPAddress]: the address of the first
    interface that is IPv4 and not internal. *)
Fixpoint firstExternalIPv4 (l : list NetInterface.t) : option string :=
  match l with
  | [] => None
  | netInterface :: rest =>
      if String.eqb (NetInterface.family netInterface) "IPv4"
         && negb (NetInterface.internal netInterface)
      then Some (NetInterface.address netInterface)
      else firstExternalIPv4 rest
  end.

(** [getLocalIPAddress], on the value of [os.networkInterfaces()]: the
    interface names in key order, each with its list of addresses. *)
Fixpoint getLocalIPAddress (interfaces : list (string * list NetInterface.t)) : string :=
  match interfaces with
  | [] => "localhost"
  | (_, l) :: rest =>
      match firstExternalIPv4 l with
      | Some address => address
      | None => getLocalIPAddress rest
      end
  end.

(** The key under which an ingest of [body] writes; [None] when the
    handler rejects the body. *)
Definition acceptedId (body : LocationBody) : option value :=
  if missingId (body_device_id body) || isUndefined (body_lat body)
     || isUndefined (body_lon body)
     || isNaN (parseFloat (body_lat body)) || isNaN (parseFloat (body_lon body))
  then None else Some (body_device_id body).

(** The registry the server starts with. *)
Definition sampleRegistry : JSMap.t string Route.t :=
  map (fun route => (Route.id route, route)) sampleRoutes.

(** [specialMath] with two more values that do not depend on the
    implementation: the sine is odd on the table (the sine of the Number
    nearest to -pi/2 is -1), and the arc tangent of +0 / x is +0 for a
    positive x. *)
Definition oddMath : MathLib :=
  mkMath
    (fun x =>
       match x with
       | S754_zero _ => x
       | S754_finite s m e =>
           if SFeqb (S754_finite false m e) (div Math_PI n2)
           then S754_finite s 4503599627370496 (-52)
           else NaN
       | _ => NaN
       end)
    (Math_cos specialMath)
    (fun y x =>
       match y with
       | S754_zero false => if gtb x n0 then zero else NaN
       | _ => Math_atan2 specialMath y x
       end).

(* ================================================================== *)
(** ** The pages that call the server *)
(* ================================================================== *)

Section BusesPage.
Variable M : MathLib.

(** [calculateETA] of the buses page, which inlines the distance. *)
Definition pageCalculateETA (lat1 lon1 lat2 lon2 speed : number) : string :=
  if eqb speed n0 then "Stopped"
  else
    let R := n6371 in
    let dLat := div (mul (sub lat2 lat1) Math_PI) n180 in
    let dLon := div (mul (sub lon2 lon1) Math_PI) n180 in
    let a :=
      add (mul (Math_sin M (div dLat n2)) (Math_sin M (div dLat n2)))
          (mul (mul (mul (Math_cos M (div (mul lat1 Math_PI) n180))
                         (Math_cos M (div (mul lat2 Math_PI) n180)))
                    (Math_sin M (div dLon n2)))
               (Math_sin M (div dLon n2))) in
    let c := mul n2 (Math_atan2 M (sqrt a) (sqrt (sub n1 a))) in
    let distance := mul R c in
    let etaHours := div distance speed in
    let etaMinutes := Math_round (mul etaHours n60) in
    if gtb etaMinutes n0 then append (Number_toString etaMinutes) " min"
    else "Arrived".

(** The refresh of one bus in [updateBusLocations]: the first location
    of the listing with the id of the bus replaces the location, and the
    ETA to the final stop is computed again; a bus that the listing does
    not hold is kept.  Reading the final stop of a route without stops
    throws: [None]. *)
Definition refreshBus (locations : list Location.t) (stops : list Stop.t)
    (bus : BusResult.t) : option BusResult.t :=
  match find (fun loc => value_eqb (Location.device_id loc) (VString (BusResult.id bus)))
             locations with
  | Some updatedLocation =>
      match nth_error stops (List.length stops - 1) with
      | Some finalStop =>
          Some (BusResult.mk (BusResult.id bus) (BusResult.route bus)
                  (Some updatedLocation)
                  (pageCalculateETA (Location.lat updatedLocation)
                     (Location.lon updatedLocation) (Stop.lat finalStop)
                     (Stop.lon finalStop) (Location.speed updatedLocation)))
      | None => None
      end
  | None => Some bus
  end.

Definition refreshRoute (locations : list Location.t) (route : RouteResult.t)
    : option RouteResult.t :=
  match traverse (refreshBus locations (RouteResult.stops route))
                 (RouteResult.buses route) with
  | Some buses =>
      Some (RouteResult.mk (RouteResult.route_id route) (RouteResult.route_name route)
              buses (RouteResult.stops route))
  | None => None
  end.

(** The state update of [updateBusLocations], from the reply of
    [GET /api/locations] and the routes the page shows. *)
Definition updateBusLocations (locations : list Location.t)
    (prevRoutes : list RouteResult.t) : option (list RouteResult.t) :=
  traverse (refreshRoute locations) prevRoutes.

End BusesPage.

(** A number that a JSON reply carries unchanged: finite, and not -0. *)
Definition jsonExact (x : number) : bool :=
  match x with
  | S754_zero false | S754_finite _ _ _ => true
  | _ => false
  end.

Definition locationJsonExact (r : Location.t) : bool :=
  jsonExact (Location.lat r) && jsonExact (Location.lon r)
  && jsonExact (Location.speed r).

Module RecentSearch.
Record t : Type := mk { from : string; to : string; timestamp : Timestamp }.
End RecentSearch.

(** [saveRecentSearch] of the search page: the new search first, the
    earlier searches for other pairs after it, five at most. *)
Definition saveRecentSearch (now : Timestamp) (from to : string)
    (recentSearches : list RecentSearch.t) : list RecentSearch.t :=
  let newSearch := RecentSearch.mk from to now in
  firstn 5
    (newSearch
     :: filter (fun search =>
                  negb (String.eqb (RecentSearch.from search) from
                        && String.eqb (RecentSearch.to search) to))
               recentSearches).

(** The pair of places of a recent search. *)
Definition searchPair (search : RecentSearch.t) : string * string :=
  (RecentSearch.from search, RecentSearch.to search).

(** [String.prototype.trim]. *)
Fixpoint trimEnd (s : string) : string :=
  match s with
  | EmptyString => EmptyString
  | String c s' =>
      match trimEnd s' with
      | EmptyString => if isWhiteSpace c then EmptyString else String c EmptyString
      | t => String c t
      end
  end.

Definition trim (s : string) : string := trimEnd (trimStart s).

(** The checks of [handleSearch] before it calls the server: the error
    it shows, or [None] when the query is sent. *)
Definition handleSearchError (from to : string) : option string :=
  if String.eqb (trim from) "" || String.eqb (trim to) ""
  then Some "Please enter both departure and destination"
  else if String.eqb (toLowerCase from) (toLowerCase to)
  then Some "Departure and destination cannot be the same"
  else None.

(* ================================================================== *)
(** ** Lemmas on maps and strings *)
(* ================================================================== *)

#[export] Instance string_KeyLaws : KeyLaws string.
Proof. exact String.eqb_eq. Qed.

Lemma number_same_spec (x y : number) : reflect (x = y) (number_same x y).
Proof.
  destruct x as [s | s | | s m e], y as [s' | s' | | s' m' e']; cbn [number_same];
    try (constructor; congruence).
  - destruct (Bool.eqb_spec s s'); constructor; congruence.
  - destruct (Bool.eqb_spec s s'); constructor; congruence.
  - destruct (Bool.eqb_spec s s'), (Pos.eqb_spec m m'), (Z.eqb_spec e e');
      constructor; congruence.
Qed.

Lemma value_eqb_spec (a b : value) : reflect (a = b) (value_eqb a b).
Proof.
  destruct a as [| | x | x | s], b as [| | y | y | t]; cbn [value_eqb];
    try (constructor; congruence).
  - destruct (Bool.eqb_spec x y); constructor; congruence.
  - destruct (number_same_spec x y); constructor; congruence.
  - destruct (String.eqb_spec s t); constructor; congruence.
Qed.

#[export] Instance value_KeyLaws : KeyLaws value.
Proof.
  intros a b. change (value_eqb a b = true <-> a = b).
  destruct (value_eqb_spec a b); split; congruence.
Qed.

Lemma key_eqb_spec {K : Type} `{KeyLaws K} (a b : K) : reflect (a = b) (key_eqb a b).
Proof. apply iff_reflect. symmetry. apply key_eqb_eq. Qed.

Lemma key_eqb_refl {K : Type} `{KeyLaws K} (k : K) : key_eqb k k = true.
Proof. destruct (key_eqb_spec k k); congruence. Qed.

Lemma get_set_same {K V : Type} `{KeyLaws K} (k : K) (v : V) (m : JSMap.t K V) :
  JSMap.get k (JSMap.set k v m) = Some v.
Proof.
  induction m as [|[k' v'] m IH]; cbn [JSMap.get JSMap.set].
  - now rewrite key_eqb_refl.
  - destruct (key_eqb k' k) eqn:E; cbn [JSMap.get]; rewrite E; auto.
Qed.

Lemma get_set_other {K V : Type} `{KeyLaws K} (k k' : K) (v : V) (m : JSMap.t K V) :
  k <> k' -> JSMap.get k' (JSMap.set k v m) = JSMap.get k' m.
Proof.
  intros Hne. induction m as [|[k0 v0] m IH]; cbn [JSMap.get JSMap.set].
  - destruct (key_eqb_spec k k'); [contradiction | reflexivity].
  - destruct (key_eqb_spec k0 k) as [->|Hk0]; cbn [JSMap.get].
    + destruct (key_eqb_spec k k'); [contradiction | reflexivity].
    + destruct (key_eqb k0 k'); auto.
Qed.

Lemma get_tickLocations (env : value -> Draw) (k : value) (m : JSMap.t value Location.t) :
  JSMap.get k (tickLocations env m) = option_map (moveBus (env k)) (JSMap.get k m).
Proof.
  induction m as [|[k' v'] m IH]; cbn [tickLocations map JSMap.get option_map]; auto.
  destruct (key_eqb_spec k' k) as [->|]; cbn [option_map]; auto.
Qed.

Lemma length_append (a b : string) :
  String.length (append a b) = (String.length a + String.length b)%nat.
Proof. induction a; simpl; auto. Qed.

Lemma min_suffix_not_label (s : string) :
  append s " min" <> "Stopped" /\ append s " min" <> "Arrived".
Proof.
  assert (H : forall t, String.length t = 7%nat -> append s " min" = t ->
                        exists a b c, t = String a (String b (String c " min"))).
  { intros t Hlen Heq. subst t. rewrite length_append in Hlen. simpl in Hlen.
    destruct s as [|a [|b [|c [|d s']]]]; simpl in Hlen; try lia.
    now exists a, b, c. }
  split; intros Heq.
  - destruct (H "Stopped" eq_refl Heq) as (a & b & c & Habs). discriminate Habs.
  - destruct (H "Arrived" eq_refl Heq) as (a & b & c & Habs). discriminate Habs.
Qed.

Lemma suffix_min_minutes (s : string) : append s " min" <> append s " minutes".
Proof.
  intros Heq. apply (f_equal String.length) in Heq.
  rewrite !length_append in Heq. simpl in Heq. lia.
Qed.

Lemma parseFloat_undefined : parseFloat VUndefined = NaN.
Proof. reflexivity. Qed.

Lemma isNaN_parse_defined (v : value) :
  isNaN (parseFloat v) = false -> isUndefined v = false.
Proof. destruct v; simpl; auto. Qed.

Lemma existsb_eqb_In v (l : list string) :
  existsb (fun bus => value_eqb (VString bus) (VString v)) l = true <-> In v l.
Proof.
  rewrite existsb_exists. cbn [value_eqb]. split.
  - intros (x & Hin & Heq). apply String.eqb_eq in Heq. now subst.
  - intros Hin. exists v. split; [assumption | apply String.eqb_refl].
Qed.

Lemma existsb_not_string device_id (l : list string) :
  (forall v, device_id <> VString v) ->
  existsb (fun bus => value_eqb (VString bus) device_id) l = false.
Proof.
  intros H. destruct device_id as [| | b | x | s];
    [| | | | now destruct (H s eq_refl)];
    induction l; cbn [existsb value_eqb orb]; auto.
Qed.

Lemma findRoute_Some v entries id :
  findRoute (VString v) entries = Some id ->
  exists pre route post,
    entries = (pre ++ (id, route) :: post)%list
    /\ In v (Route.buses route)
    /\ forall id' route', In (id', route') pre -> ~ In v (Route.buses route').
Proof.
  induction entries as [|[id0 route0] entries IH]; cbn [findRoute]; [discriminate|].
  destruct (existsb (fun bus => value_eqb (VString bus) (VString v)) (Route.buses route0))
    eqn:E.
  - intros [= <-]. exists [], route0, entries. split; [reflexivity|].
    split; [now apply existsb_eqb_In | intros ? ? []].
  - intros H. destruct (IH H) as (pre & route & post & -> & Hin & Hpre).
    exists ((id0, route0) :: pre), route, post. split; [reflexivity|].
    split; [assumption|]. intros id' route' [[= <- <-] | Hin'].
    + intros Habs. apply existsb_eqb_In in Habs. congruence.
    + apply (Hpre id' route' Hin').
Qed.

Lemma findRoute_first v pre id route post :
  In v (Route.buses route) ->
  (forall id' route', In (id', route') pre -> ~ In v (Route.buses route')) ->
  findRoute (VString v) (pre ++ (id, route) :: post) = Some id.
Proof.
  intros Hin. induction pre as [|[id0 route0] pre IH]; intros Hpre;
    cbn [app findRoute].
  - now rewrite (proj2 (existsb_eqb_In v (Route.buses route)) Hin).
  - destruct (existsb (fun bus => value_eqb (VString bus) (VString v))
                (Route.buses route0)) eqn:E.
    + apply existsb_eqb_In in E. now destruct (Hpre id0 route0 (or_introl eq_refl)).
    + apply IH. intros id' route' Hin'. apply (Hpre id' route'). now right.
Qed.

Lemma findRoute_None v entries :
  findRoute (VString v) entries = None <->
  forall id route, In (id, route) entries -> ~ In v (Route.buses route).
Proof.
  induction entries as [|[id0 route0] entries IH]; cbn [findRoute].
  - split; [intros _ ? ? [] | reflexivity].
  - destruct (existsb (fun bus => value_eqb (VString bus) (VString v))
                (Route.buses route0)) eqn:E.
    + split; [discriminate|]. intros H. exfalso.
      apply (H id0 route0); [now left | now apply existsb_eqb_In].
    + rewrite IH. split.
      * intros H id route [[= <- <-] | Hin].
        -- intros Habs. apply existsb_eqb_In in Habs. congruence.
        -- now apply (H id route).
      * intros H id route Hin. apply (H id route). now right.
Qed.

Lemma findRoute_not_string device_id entries :
  (forall v, device_id <> VString v) -> findRoute device_id entries = None.
Proof.
  intros H. induction entries as [|[id0 route0] entries IH]; cbn [findRoute];
    [reflexivity|].
  now rewrite (existsb_not_string device_id (Route.buses route0) H).
Qed.

(** An ingest with an id and coordinates that parse is accepted. *)
Lemma postLocation_accepts now v lat lon speed st :
  v <> "" ->
  isNaN (parseFloat lat) = false ->
  isNaN (parseFloat lon) = false ->
  ingest now v lat lon speed st =
    (mkServer (JSMap.set (VString v) (recordOf now v lat lon speed st) (busLocations st))
              (busRoutes st),
     Ok (recordOf now v lat lon speed st)).
Proof.
  intros Hv Hlat Hlon. unfold ingest, postLocation. cbv zeta.
  cbn [body_device_id body_lat body_lon body_speed missingId falsy].
  rewrite (isNaN_parse_defined _ Hlat), (isNaN_parse_defined _ Hlon), Hlat, Hlon.
  destruct (String.eqb_spec v ""); [contradiction|]. reflexivity.
Qed.

(** An ingest without an id, or with a coordinate that is absent or does
    not parse, is rejected and leaves the server as it was. *)
Lemma postLocation_rejects now body st :
  missingId (body_device_id body) = true
  \/ isNaN (parseFloat (body_lat body)) = true
  \/ isNaN (parseFloat (body_lon body)) = true ->
  InvalidCoordinate (snd (postLocation now body st))
  /\ fst (postLocation now body st) = st.
Proof.
  intros H. unfold postLocation, InvalidCoordinate. cbv zeta.
  destruct (missingId (body_device_id body) || isUndefined (body_lat body)
            || isUndefined (body_lon body)) eqn:Hm; [simpl; auto|].
  apply orb_false_elim in Hm as [Hm Hlon]. apply orb_false_elim in Hm as [Hm Hlat].
  destruct H as [H | [H | H]].
  - congruence.
  - rewrite H. simpl; auto.
  - rewrite H, orb_true_r. simpl; auto.
Qed.

Lemma postLocation_routes now body st :
  busRoutes (fst (postLocation now body st)) = busRoutes st.
Proof.
  unfold postLocation. cbv zeta.
  destruct (missingId (body_device_id body) || isUndefined (body_lat body)
            || isUndefined (body_lon body)); [reflexivity|].
  destruct (isNaN (parseFloat (body_lat body)) || isNaN (parseFloat (body_lon body)));
    reflexivity.
Qed.

Lemma recordOf_routes now v lat lon speed st st' :
  busRoutes st' = busRoutes st ->
  recordOf now v lat lon speed st' = recordOf now v lat lon speed st.
Proof. intros H. unfold recordOf. now rewrite H. Qed.

Lemma get_one_after_accept now v lat lon speed st :
  v <> "" ->
  isNaN (parseFloat lat) = false ->
  isNaN (parseFloat lon) = false ->
  get_one v (fst (ingest now v lat lon speed st)) = Ok (recordOf now v lat lon speed st).
Proof.
  intros Hv Hlat Hlon. rewrite (postLocation_accepts _ _ _ _ _ _ Hv Hlat Hlon).
  unfold get_one, getLocation. cbn [fst busLocations]. now rewrite get_set_same.
Qed.

(* ================================================================== *)
(** ** Ingestion and point queries *)
(* ================================================================== *)

(** C2. For a non-empty vehicle id and coordinates that parse, [ingest]
    answers with the record built from that call alone, and [get_one]
    then returns that same record, whatever the store held before: also
    after an earlier ingest for the same id, of which nothing remains.
    The record holds the id, the parsed latitude and longitude, the
    parsed speed (+0 when it is absent, does not parse or is a zero) and
    the clock reading; its status is active exactly when that speed is
    greater than 0, and stopped otherwise; its route is the id of the
    first entry of the registry that lists the vehicle, and [null]
    exactly when no entry does. *)
Theorem ingest_then_get_one now v lat lon speed st :
  v <> "" ->
  isNaN (parseFloat lat) = false ->
  isNaN (parseFloat lon) = false ->
  let r := recordOf now v lat lon speed st in
  snd (ingest now v lat lon speed st) = Ok r
  /\ get_one v (fst (ingest now v lat lon speed st)) = Ok r
  /\ (forall now0 lat0 lon0 speed0,
        get_one v (fst (ingest now v lat lon speed
                          (fst (ingest now0 v lat0 lon0 speed0 st))))
        = Ok r)
  /\ Location.device_id r = VString v
  /\ Location.lat r = parseFloat lat
  /\ Location.lon r = parseFloat lon
  /\ Location.speed r
     = (if truthy (parseFloat speed) then parseFloat speed else zero)
  /\ Location.updated r = now
  /\ (Location.status r = active <-> gtb (Location.speed r) zero = true)
  /\ (Location.status r = stopped <-> gtb (Location.speed r) zero = false)
  /\ (forall id,
        Location.route_id r = Some id <->
        exists pre route post,
          JSMap.entries (busRoutes st) = (pre ++ (id, route) :: post)%list
          /\ In v (Route.buses route)
          /\ forall id' route', In (id', route') pre -> ~ In v (Route.buses route'))
  /\ (Location.route_id r = None <->
      forall id route,
        In (id, route) (JSMap.entries (busRoutes st)) -> ~ In v (Route.buses route)).
Proof.
  intros Hv Hlat Hlon r. subst r.
  split; [now rewrite (postLocation_accepts _ _ _ _ _ _ Hv Hlat Hlon)|].
  split; [now apply get_one_after_accept|].
  split.
  { intros now0 lat0 lon0 speed0.
    rewrite (get_one_after_accept _ _ _ _ _ _ Hv Hlat Hlon). f_equal.
    apply recordOf_routes. apply postLocation_routes. }
  unfold recordOf.
  cbn [Location.device_id Location.lat Location.lon Location.speed Location.updated
       Location.status Location.route_id].
  do 5 (split; [reflexivity|]).
  unfold statusOfSpeed, n0.
  split; [|split; [|split]].
  - destruct (gtb (orZero (parseFloat speed)) zero); split; congruence.
  - destruct (gtb (orZero (parseFloat speed)) zero); split; congruence.
  - intros id. split; [apply findRoute_Some|].
    intros (pre & route & post & -> & Hin & Hpre). now apply findRoute_first.
  - apply findRoute_None.
Qed.

Lemma ingest_then_get_one_witness :
  let now := 2000 in
  let lat := VString "11.1563" in
  let lon := VNumber (dec 775932 (-4)) in
  let speed := VNumber (ofZ 35) in
  let st := exampleServer in
  let r := recordOf now "BUS_101" lat lon speed st in
  snd (ingest now "BUS_101" lat lon speed st) = Ok r
  /\ get_one "BUS_101" (fst (ingest now "BUS_101" lat lon speed st)) = Ok r
  /\ (forall now0 lat0 lon0 speed0,
        get_one "BUS_101"
          (fst (ingest now "BUS_101" lat lon speed
                  (fst (ingest now0 "BUS_101" lat0 lon0 speed0 st))))
        = Ok r)
  /\ Location.device_id r = VString "BUS_101"
  /\ Location.lat r = parseFloat lat
  /\ Location.lon r = parseFloat lon
  /\ Location.speed r
     = (if truthy (parseFloat speed) then parseFloat speed else zero)
  /\ Location.updated r = now
  /\ (Location.status r = active <-> gtb (Location.speed r) zero = true)
  /\ (Location.status r = stopped <-> gtb (Location.speed r) zero = false)
  /\ (forall id,
        Location.route_id r = Some id <->
        exists pre route post,
          JSMap.entries (busRoutes st) = (pre ++ (id, route) :: post)%list
          /\ In "BUS_101" (Route.buses route)
          /\ forall id' route',
               In (id', route') pre -> ~ In "BUS_101" (Route.buses route'))
  /\ (Location.route_id r = None <->
      forall id route,
        In (id, route) (JSMap.entries (busRoutes st))
        -> ~ In "BUS_101" (Route.buses route)).
Proof.
  intros now lat lon speed st.
  apply (ingest_then_get_one now "BUS_101" lat lon speed st).
  - discriminate.
  - reflexivity.
  - reflexivity.
Defined.

(** The record of the example of C2, computed: the speed 35 gives the
    status active, and BUS_101 resolves to ROUTE_001. *)
Lemma ingest_example_record :
  snd (ingest 2000 "BUS_101" (VString "11.1563") (VNumber (dec 775932 (-4)))
         (VNumber (ofZ 35)) exampleServer)
  = Ok (Location.mk (VString "BUS_101") (dec 111563 (-4)) (dec 775932 (-4)) (ofZ 35)
          (Some "ROUTE_001") 2000 active).
Proof. vm_compute. reflexivity. Qed.

(** C4. An ingest whose latitude or longitude is absent or does not parse
    to a number is rejected with [InvalidCoordinate], and the server is
    left as it was: every record, the one of that vehicle included, reads
    as before. *)
Theorem ingest_invalid_coordinate_no_write now body st :
  isUndefined (body_lat body) = true \/ isUndefined (body_lon body) = true
  \/ isNaN (parseFloat (body_lat body)) = true
  \/ isNaN (parseFloat (body_lon body)) = true ->
  InvalidCoordinate (snd (postLocation now body st))
  /\ fst (postLocation now body st) = st
  /\ forall v, get_one v (fst (postLocation now body st)) = get_one v st.
Proof.
  intros H.
  assert (Hnan : missingId (body_device_id body) = true
                 \/ isNaN (parseFloat (body_lat body)) = true
                 \/ isNaN (parseFloat (body_lon body)) = true).
  { destruct H as [H | [H | [H | H]]]; auto.
    - right; left. destruct (body_lat body); try discriminate H. reflexivity.
    - right; right. destruct (body_lon body); try discriminate H. reflexivity. }
  destruct (postLocation_rejects now body st Hnan) as [Hr Hs].
  split; [exact Hr|]. split; [exact Hs|]. intros v. now rewrite Hs.
Qed.

Lemma ingest_invalid_coordinate_no_write_witness :
  let body := mkBody (VString "BUS_101") (VString "not-a-number") (VString "77.5932")
                     (VNumber (ofZ 35)) in
  InvalidCoordinate (snd (postLocation 2000 body exampleServer))
  /\ fst (postLocation 2000 body exampleServer) = exampleServer
  /\ forall v, get_one v (fst (postLocation 2000 body exampleServer))
               = get_one v exampleServer.
Proof.
  apply (ingest_invalid_coordinate_no_write 2000
           (mkBody (VString "BUS_101") (VString "not-a-number") (VString "77.5932")
                   (VNumber (ofZ 35))) exampleServer).
  right; right; left. reflexivity.
Defined.

(** C5, as stated, fails: the latitude "Infinity" does not parse to a
    finite number, yet the ingest is accepted and the record written. *)
Lemma infinite_latitude_is_stored :
  let st := fst (ingest 2000 "BUS_101" (VString "Infinity") (VString "77.5932")
                   (VNumber (ofZ 35)) exampleServer) in
  isFinite (parseFloat (VString "Infinity")) = false
  /\ ~ InvalidCoordinate
         (snd (ingest 2000 "BUS_101" (VString "Infinity") (VString "77.5932")
                 (VNumber (ofZ 35)) exampleServer))
  /\ st <> exampleServer
  /\ exists r, get_one "BUS_101" st = Ok r /\ Location.lat r = Infinity.
Proof.
  cbv zeta.
  assert (Hlat : isNaN (parseFloat (VString "Infinity")) = false) by reflexivity.
  assert (Hlon : isNaN (parseFloat (VString "77.5932")) = false) by reflexivity.
  assert (Hv : "BUS_101" <> "") by discriminate.
  split; [reflexivity|].
  rewrite (postLocation_accepts 2000 _ _ _ (VNumber (ofZ 35)) exampleServer Hv Hlat Hlon).
  split; [|split].
  - intros [H | H]; discriminate H.
  - unfold fst. intros H.
    apply (f_equal (fun s => JSMap.get (VString "BUS_101") (busLocations s))) in H.
    vm_compute in H. discriminate H.
  - eexists. split.
    + unfold get_one, getLocation, fst. cbn [busLocations]. rewrite get_set_same.
      reflexivity.
    + reflexivity.
Qed.

(** C5, amended.  An ingest with a non-empty id is rejected with
    [InvalidCoordinate] exactly when its latitude or longitude is absent
    or parses to NaN, and then nothing is written; every other value,
    the ones that parse to +Infinity or -Infinity included, is accepted
    and stored as parsed. *)
Theorem ingest_rejects_exactly_nan now v lat lon speed st :
  v <> "" ->
  (InvalidCoordinate (snd (ingest now v lat lon speed st))
   <-> isNaN (parseFloat lat) = true \/ isNaN (parseFloat lon) = true)
  /\ (InvalidCoordinate (snd (ingest now v lat lon speed st))
      -> fst (ingest now v lat lon speed st) = st)
  /\ (isNaN (parseFloat lat) = false -> isNaN (parseFloat lon) = false ->
      exists r, get_one v (fst (ingest now v lat lon speed st)) = Ok r
                /\ Location.lat r = parseFloat lat
                /\ Location.lon r = parseFloat lon).
Proof.
  intros Hv.
  destruct (isNaN (parseFloat lat)) eqn:Hlat;
    [|destruct (isNaN (parseFloat lon)) eqn:Hlon].
  - destruct (postLocation_rejects now (mkBody (VString v) lat lon speed) st) as [Hr Hs];
      [right; left; exact Hlat|].
    split; [split; auto|]. split; [auto|discriminate].
  - destruct (postLocation_rejects now (mkBody (VString v) lat lon speed) st) as [Hr Hs];
      [right; right; exact Hlon|].
    split; [split; auto|]. split; [auto|discriminate].
  - assert (Hok := postLocation_accepts now v lat lon speed st Hv Hlat Hlon).
    split; [|split].
    + rewrite Hok. split.
      * intros [H | H]; discriminate H.
      * intros [H | H]; discriminate H.
    + rewrite Hok. intros [H | H]; discriminate H.
    + intros _ _. exists (recordOf now v lat lon speed st). split; [|split; reflexivity].
      now apply get_one_after_accept.
Qed.

Lemma ingest_rejects_exactly_nan_witness :
  let lat := VString "-Infinity" in
  let lon := VString "77.5932" in
  let speed := VNumber (ofZ 35) in
  (InvalidCoordinate (snd (ingest 2000 "BUS_101" lat lon speed exampleServer))
   <-> isNaN (parseFloat lat) = true \/ isNaN (parseFloat lon) = true)
  /\ (InvalidCoordinate (snd (ingest 2000 "BUS_101" lat lon speed exampleServer))
      -> fst (ingest 2000 "BUS_101" lat lon speed exampleServer) = exampleServer)
  /\ (isNaN (parseFloat lat) = false -> isNaN (parseFloat lon) = false ->
      exists r, get_one "BUS_101"
                  (fst (ingest 2000 "BUS_101" lat lon speed exampleServer)) = Ok r
                /\ Location.lat r = parseFloat lat
                /\ Location.lon r = parseFloat lon).
Proof.
  intros lat lon speed.
  apply (ingest_rejects_exactly_nan 2000 "BUS_101" lat lon speed exampleServer).
  discriminate.
Defined.

(** C10. A latitude with a numeric prefix and trailing characters is
    accepted: "12.5abc" parses to 12.5, the ingest succeeds and the record
    read back holds 12.5, in any state of the server. *)
Theorem ingest_accepts_numeric_prefix :
  forall now st,
    parseFloat (VString "12.5abc") = dec 125 (-1)
    /\ exists r,
         snd (ingest now "BUS_101" (VString "12.5abc") (VString "77.5932")
                (VNumber (ofZ 35)) st) = Ok r
         /\ ~ InvalidCoordinate (Ok r)
         /\ Location.lat r = dec 125 (-1)
         /\ get_one "BUS_101"
              (fst (ingest now "BUS_101" (VString "12.5abc") (VString "77.5932")
                      (VNumber (ofZ 35)) st)) = Ok r.
Proof.
  intros now st.
  assert (Hlat : isNaN (parseFloat (VString "12.5abc")) = false) by reflexivity.
  assert (Hlon : isNaN (parseFloat (VString "77.5932")) = false) by reflexivity.
  assert (Hv : "BUS_101" <> "") by discriminate.
  split; [reflexivity|].
  exists (recordOf now "BUS_101" (VString "12.5abc") (VString "77.5932")
            (VNumber (ofZ 35)) st).
  split; [|split; [|split]].
  - now rewrite (postLocation_accepts _ _ _ _ _ _ Hv Hlat Hlon).
  - intros [H | H]; discriminate H.
  - reflexivity.
  - now apply get_one_after_accept.
Qed.

(* ================================================================== *)
(** ** The initial store *)
(* ================================================================== *)

Lemma initial_locations clock :
  busLocations (initialServer clock) =
  [ (VString "BUS_101",
     Location.mk (VString "BUS_101") (dec 111563 (-4)) (dec 775932 (-4)) n0
       (Some "ROUTE_001") (clock "BUS_101") stopped);
    (VString "BUS_102",
     Location.mk (VString "BUS_102") (dec 111563 (-4)) (dec 775932 (-4)) n0
       (Some "ROUTE_001") (clock "BUS_102") stopped);
    (VString "BUS_201",
     Location.mk (VString "BUS_201") (dec 111463 (-4)) (dec 775832 (-4)) n0
       (Some "ROUTE_002") (clock "BUS_201") stopped);
    (VString "BUS_202",
     Location.mk (VString "BUS_202") (dec 111463 (-4)) (dec 775832 (-4)) n0
       (Some "ROUTE_002") (clock "BUS_202") stopped) ].
Proof. reflexivity. Qed.

Lemma initial_routes clock :
  busRoutes (initialServer clock) = map (fun r => (Route.id r, r)) sampleRoutes.
Proof. reflexivity. Qed.

(** C8, as stated, fails: in the initial state, before any ingest or
    tick, the point query for the pre-seeded vehicle BUS_101 is answered
    with a record, not with [NotFound]. *)
Lemma seeded_bus_is_found :
  ~ NotFound (get_one "BUS_101" (initialServer exampleClock))
  /\ exists r, get_one "BUS_101" (initialServer exampleClock) = Ok r
               /\ Location.status r = stopped.
Proof.
  unfold get_one, getLocation, NotFound. rewrite initial_locations. simpl.
  split; [discriminate|]. eexists. split; reflexivity.
Qed.

(** C8, amended.  In the initial state [get_one] fails with [NotFound]
    exactly for the vehicle ids that no pre-seeded route lists.  Each
    listed id (BUS_101, BUS_102, BUS_201, BUS_202) has a record from the
    start: at the first stop of its route, at speed 0 and stopped. *)
Theorem initial_store_is_seeded :
  forall clock v,
    (NotFound (get_one v (initialServer clock)) <-> ~ In v seededBuses)
    /\ (In v seededBuses ->
        exists r route first,
          get_one v (initialServer clock) = Ok r
          /\ In route sampleRoutes /\ In v (Route.buses route)
          /\ firstStop route = Some first
          /\ r = Location.mk (VString v) (Stop.lat first) (Stop.lon first) n0
                   (Some (Route.id route)) (clock v) stopped).
Proof.
  intros clock v.
  unfold get_one, getLocation, NotFound. rewrite initial_locations.
  change seededBuses with ["BUS_101"; "BUS_102"; "BUS_201"; "BUS_202"].
  cbn [JSMap.get key_eqb value_Key value_eqb].
  destruct (String.eqb_spec "BUS_101" v) as [<-|H1].
  { split; [split; [discriminate | intros H; exfalso; apply H; simpl; auto]|].
    intros _. eexists. exists (nth 0 sampleRoutes (Route.mk "" "" [] [])). eexists.
    split; [reflexivity|]. split; [simpl; auto|]. split; [simpl; auto|].
    split; reflexivity. }
  destruct (String.eqb_spec "BUS_102" v) as [<-|H2].
  { split; [split; [discriminate | intros H; exfalso; apply H; simpl; auto]|].
    intros _. eexists. exists (nth 0 sampleRoutes (Route.mk "" "" [] [])). eexists.
    split; [reflexivity|]. split; [simpl; auto|]. split; [simpl; auto|].
    split; reflexivity. }
  destruct (String.eqb_spec "BUS_201" v) as [<-|H3].
  { split; [split; [discriminate | intros H; exfalso; apply H; simpl; auto]|].
    intros _. eexists. exists (nth 1 sampleRoutes (Route.mk "" "" [] [])). eexists.
    split; [reflexivity|]. split; [simpl; auto|]. split; [simpl; auto|].
    split; reflexivity. }
  destruct (String.eqb_spec "BUS_202" v) as [<-|H4].
  { split; [split; [discriminate | intros H; exfalso; apply H; simpl; auto]|].
    intros _. eexists. exists (nth 1 sampleRoutes (Route.mk "" "" [] [])). eexists.
    split; [reflexivity|]. split; [simpl; auto|]. split; [simpl; auto|].
    split; reflexivity. }
  split.
  - split; [|reflexivity]. intros _ [H | [H | [H | [H | []]]]]; congruence.
  - intros [H | [H | [H | [H | []]]]]; congruence.
Qed.

(* ================================================================== *)
(** ** ETA *)
(* ================================================================== *)

(** C3, as stated, fails: from (0, 0) to the antipodal point (0, 180)
    at 60 km/h the speed is not 0 and the rounded minutes are 20015 (the
    distance is 6371 * pi km), and the result is the string "20015 min",
    not "20015 minutes". *)
Lemma eta_suffix_is_min :
  let speed := ofZ 60 in
  let n := etaMinutes specialMath zero zero zero n180 speed in
  eqb speed n0 = false
  /\ leb n n0 = false
  /\ Number_toString n = "20015"
  /\ calculateETA specialMath zero zero zero n180 speed = "20015 min"
  /\ calculateETA specialMath zero zero zero n180 speed
     <> append (Number_toString n) " minutes".
Proof.
  cbv zeta. split; [reflexivity|]. split; [vm_compute; reflexivity|].
  split; [vm_compute; reflexivity|].
  split; [vm_compute; reflexivity|]. vm_compute. discriminate.
Qed.

(** C3, amended.  [calculateETA] returns "Stopped" exactly when the speed
    equals 0.  Otherwise, with n the rounded number of minutes
    round(distance / speed * 60), it returns "Arrived" exactly when n > 0
    does not hold (n <= 0, or n is NaN), and else the string made of n
    followed by " min". *)
Theorem calculateETA_cases :
  forall (M : MathLib) (lat lon destLat destLon speed : number),
    let n := etaMinutes M lat lon destLat destLon speed in
    let result := calculateETA M lat lon destLat destLon speed in
    (result = "Stopped" <-> eqb speed n0 = true)
    /\ (result = "Arrived" <-> eqb speed n0 = false /\ gtb n n0 = false)
    /\ (result = append (Number_toString n) " min"
        <-> eqb speed n0 = false /\ gtb n n0 = true)
    /\ (gtb n n0 = false <-> leb n n0 = true \/ isNaN n = true).
Proof.
  intros M lat lon destLat destLon speed n result.
  destruct (min_suffix_not_label (Number_toString n)) as [Hs Ha].
  assert (Hcmp : gtb n n0 = false <-> leb n n0 = true \/ isNaN n = true).
  { unfold gtb, ltb, leb, SFltb, SFleb, n0, zero.
    destruct n as [s | [|] | | [|] m e]; simpl; intuition congruence. }
  subst result. unfold calculateETA. fold n.
  destruct (eqb speed n0) eqn:Hspeed.
  - split; [tauto|]. split; [split; [discriminate | intros [H _]; discriminate H]|].
    split; [|exact Hcmp].
    split; [intros H; symmetry in H; contradiction | intros [H _]; discriminate H].
  - destruct (gtb n n0) eqn:Hgt.
    + split; [split; [intros H; contradiction | discriminate]|].
      split; [split; [intros H; contradiction | intros [_ H]; discriminate H]|].
      split; [tauto | exact Hcmp].
    + split; [split; discriminate|]. split; [tauto|].
      split; [|exact Hcmp].
      split; [intros H; symmetry in H; contradiction | intros [_ H]; discriminate H].
Qed.

(* ================================================================== *)
(** ** Search *)
(* ================================================================== *)

Lemma prefix_append (a s : string) :
  prefix a s = true <-> exists after, s = append a after.
Proof.
  revert s. induction a as [|c a IH]; intros s.
  - destruct s; cbn [prefix append]; split; eauto.
  - destruct s as [|d s]; cbn [prefix append].
    + split; [discriminate | intros [after H]; discriminate H].
    + destruct (ascii_dec c d) as [->|Hne].
      * rewrite IH. split; intros [after H]; exists after; congruence.
      * split; [discriminate | intros [after [= H _]]; congruence].
Qed.

(** [includes] finds [sub] wherever it stands in [s]. *)
Lemma includes_occursIn (sub s : string) :
  includes sub s = true <-> occursIn sub s.
Proof.
  unfold occursIn. induction s as [|c s IH].
  - cbn [includes]. rewrite orb_false_r, prefix_append. split.
    + intros [after H]. now exists "", after.
    + intros (before & after & H). destruct before as [|d before]; [|discriminate H].
      now exists after.
  - cbn [includes]. rewrite orb_true_iff, prefix_append, IH. split.
    + intros [[after H] | (before & after & H)].
      * now exists "", after.
      * exists (String c before), after. cbn [append]. now rewrite H.
    + intros (before & after & H). destruct before as [|d before].
      * left. now exists after.
      * right. injection H as _ H. now exists before, after.
Qed.

Lemma routeMatches_strings from to route :
  routeMatches (QString from) (QString to) route
  = Some (existsb (fun name => includes (toLowerCase from) name)
            (map (fun stop => toLowerCase (Stop.name stop)) (Route.stops route))
          && existsb (fun name => includes (toLowerCase to) name)
               (map (fun stop => toLowerCase (Stop.name stop)) (Route.stops route))).
Proof.
  unfold routeMatches, someIncludes. cbv zeta.
  destruct (map (fun stop => toLowerCase (Stop.name stop)) (Route.stops route))
    as [|name names]; [reflexivity|].
  cbn [lowerCased].
  destruct (existsb (fun name0 => includes (toLowerCase from) name0) (name :: names));
    reflexivity.
Qed.

Lemma routeMatches_true from to route :
  routeMatches (QString from) (QString to) route = Some true
  <-> stringsMatch from to route = true.
Proof.
  unfold stringsMatch. rewrite routeMatches_strings. split; congruence.
Qed.

Lemma routeMatches_iff from to route :
  stringsMatch from to route = true <->
  (exists stop, In stop (Route.stops route)
                /\ includes (toLowerCase from) (toLowerCase (Stop.name stop)) = true)
  /\ (exists stop, In stop (Route.stops route)
                   /\ includes (toLowerCase to) (toLowerCase (Stop.name stop)) = true).
Proof.
  unfold stringsMatch. rewrite routeMatches_strings, andb_true_iff, !existsb_exists.
  split; intros [H1 H2]; split.
  - destruct H1 as (name & Hin & Hinc). apply in_map_iff in Hin as (stop & <- & Hin).
    now exists stop.
  - destruct H2 as (name & Hin & Hinc). apply in_map_iff in Hin as (stop & <- & Hin).
    now exists stop.
  - destruct H1 as (stop & Hin & Hinc). eexists. split; [|exact Hinc].
    apply in_map_iff. now exists stop.
  - destruct H2 as (stop & Hin & Hinc). eexists. split; [|exact Hinc].
    apply in_map_iff. now exists stop.
Qed.

Lemma routeMatches_sym from to route :
  routeMatches (QString from) (QString to) route
  = routeMatches (QString to) (QString from) route.
Proof. rewrite !routeMatches_strings. f_equal. apply andb_comm. Qed.

Lemma routeMatches_case from from' to to' route :
  toLowerCase from = toLowerCase from' -> toLowerCase to = toLowerCase to' ->
  routeMatches (QString from) (QString to) route
  = routeMatches (QString from') (QString to') route.
Proof. intros Hf Ht. rewrite !routeMatches_strings. now rewrite Hf, Ht. Qed.

Lemma filterThrowing_total {A : Type} (keep : A -> option bool) (g : A -> bool)
    (l : list A) :
  (forall x, In x l -> keep x = Some (g x)) ->
  filterThrowing keep l = Some (filter g l).
Proof.
  induction l as [|x l IH]; intros H; cbn [filterThrowing filter]; [reflexivity|].
  rewrite (H x (or_introl eq_refl)), IH; [|intros y Hy; apply H; now right].
  now destruct (g x).
Qed.

Lemma filter_strings from to (routes : list Route.t) :
  filterThrowing (routeMatches (QString from) (QString to)) routes
  = Some (filter (stringsMatch from to) routes).
Proof.
  apply filterThrowing_total. intros route _. unfold stringsMatch.
  now rewrite routeMatches_strings.
Qed.

(** On two strings the search cannot throw in its filter. *)
Lemma search_strings M from to st :
  search M (Some (QString from)) (Some (QString to)) st
  = if String.eqb from "" || String.eqb to ""
    then Error 400 "Missing from or to parameter"
    else match traverse (routeResult M st)
                 (filter (stringsMatch from to) (JSMap.values (busRoutes st))) with
         | Some results => Ok results
         | None => Error 500 "Internal Server Error"
         end.
Proof.
  unfold search. rewrite filter_strings. cbn [missingParam].
  destruct (String.eqb_spec from "") as [->|Hf]; [reflexivity|].
  destruct (String.eqb_spec to "") as [->|Ht].
  - destruct from; [contradiction | reflexivity].
  - destruct from; [contradiction|]. destruct to; [contradiction|]. reflexivity.
Qed.

Lemma lastStop_some route :
  Route.stops route <> [] -> exists dest, lastStop route = Some dest.
Proof.
  unfold lastStop. intros Hne.
  destruct (nth_error (Route.stops route) (List.length (Route.stops route) - 1)) eqn:E.
  - now eexists.
  - apply nth_error_None in E. destruct (Route.stops route); [congruence|].
    simpl in E. lia.
Qed.

Lemma traverse_total {A B : Type} (f : A -> option B) (l : list A) :
  (forall x, In x l -> exists y, f x = Some y) ->
  exists ys, traverse f l = Some ys /\ Forall2 (fun x y => f x = Some y) l ys.
Proof.
  induction l as [|x l IH]; intros H; simpl.
  - exists []. split; [reflexivity | constructor].
  - destruct (H x (or_introl eq_refl)) as [y Hy].
    destruct IH as (ys & Hys & HF); [intros x' Hx'; apply H; now right|].
    exists (y :: ys). rewrite Hy, Hys. split; [reflexivity | now constructor].
Qed.

Lemma traverse_Forall2 {A B : Type} (f : A -> option B) (l : list A) (ys : list B) :
  traverse f l = Some ys -> Forall2 (fun x y => f x = Some y) l ys.
Proof.
  revert ys. induction l as [|x l IH]; simpl; intros ys H.
  - injection H as <-. constructor.
  - destruct (f x) as [y|] eqn:Hy; [|discriminate].
    destruct (traverse f l) as [ys'|]; [|discriminate].
    injection H as <-. constructor; auto.
Qed.

Lemma Forall2_in_left {A B : Type} (R : A -> B -> Prop) l ys x :
  Forall2 R l ys -> In x l -> exists y, In y ys /\ R x y.
Proof.
  induction 1 as [|a b l ys Hab HF IH]; simpl; [tauto|].
  intros [<- | Hin]; [exists b; auto|].
  destruct (IH Hin) as (y & Hy & HR). exists y; auto.
Qed.

Lemma Forall2_in_right {A B : Type} (R : A -> B -> Prop) l ys y :
  Forall2 R l ys -> In y ys -> exists x, In x l /\ R x y.
Proof.
  induction 1 as [|a b l ys Hab HF IH]; simpl; [tauto|].
  intros [<- | Hin]; [exists a; auto|].
  destruct (IH Hin) as (x & Hx & HR). exists x; auto.
Qed.

Lemma busResult_id M st route busId b :
  busResult M st route busId = Some b -> BusResult.id b = busId.
Proof.
  unfold busResult. destruct (JSMap.get (VString busId) (busLocations st)).
  - destruct (lastStop route); [|discriminate]. now intros [= <-].
  - now intros [= <-].
Qed.

Lemma routeResult_total M st route :
  Route.stops route <> [] -> exists res, routeResult M st route = Some res.
Proof.
  intros Hne. destruct (lastStop_some route Hne) as [dest Hdest].
  unfold routeResult.
  destruct (traverse_total (busResult M st route) (Route.buses route)) as (bs & Hbs & _).
  { intros busId _. unfold busResult. rewrite Hdest.
    destruct (JSMap.get (VString busId) (busLocations st)); now eexists. }
  rewrite Hbs. now eexists.
Qed.

(** The route can be read back from its result. *)
Lemma routeResult_inj M st route route' res :
  routeResult M st route = Some res -> routeResult M st route' = Some res ->
  route = route'.
Proof.
  assert (Hids : forall r bs, traverse (busResult M st r) (Route.buses r) = Some bs ->
                             map BusResult.id bs = Route.buses r).
  { intros r bs Hbs. apply traverse_Forall2 in Hbs.
    induction Hbs as [|x y l ys Hxy HF IH]; simpl; [reflexivity|].
    now rewrite (busResult_id _ _ _ _ _ Hxy), IH. }
  unfold routeResult. intros H H'.
  destruct (traverse (busResult M st route) (Route.buses route)) as [bs|] eqn:E;
    [|discriminate].
  destruct (traverse (busResult M st route') (Route.buses route')) as [bs'|] eqn:E';
    [|discriminate].
  injection H as <-. injection H' as Hid Hname Hbs Hstops.
  apply Hids in E. apply Hids in E'. subst bs'. rewrite E in E'.
  destruct route, route'; simpl in *. congruence.
Qed.

Lemma routeMatches_stops from to route :
  stringsMatch from to route = true -> Route.stops route <> [].
Proof.
  intros H. apply routeMatches_iff in H as [(stop & Hin & _) _].
  intros Hnil. now rewrite Hnil in Hin.
Qed.

Lemma search_filters M from to st :
  from <> "" -> to <> "" ->
  exists results,
    search M (Some (QString from)) (Some (QString to)) st = Ok results
    /\ Forall2 (fun route res => routeResult M st route = Some res)
         (filter (stringsMatch from to) (JSMap.values (busRoutes st))) results.
Proof.
  intros Hf Ht. rewrite search_strings.
  destruct (String.eqb_spec from ""); [contradiction|].
  destruct (String.eqb_spec to ""); [contradiction|]. cbn [orb].
  destruct (traverse_total (routeResult M st)
              (filter (stringsMatch from to) (JSMap.values (busRoutes st))))
    as (results & Hres & HF).
  { intros route Hin. apply filter_In in Hin as [_ Hm].
    apply routeResult_total. eapply routeMatches_stops; eauto. }
  exists results. now rewrite Hres.
Qed.

(** C6. For non-empty strings [from] and [to], the search answers with
    the results of exactly the routes of the registry, in registry
    order, of which some stop name contains [from] and some stop name
    contains [to], both compared in lower case, where to contain is to
    hold the text anywhere: at the front, in the middle or at the end.
    The condition does not depend on the order of the two stops, nor on
    the case of the query: on the sample registry "Airport" to "City"
    and "city" to "airport" both find ROUTE_001, "Nowhere" to "Airport"
    finds nothing, and "ark" to "tat", which stand inside "Tech Park"
    and "Railway Station", find ROUTE_002. *)
Theorem search_matches_both_endpoints M from to st :
  from <> "" -> to <> "" ->
  (exists results matching,
     search M (Some (QString from)) (Some (QString to)) st = Ok results
     /\ filterThrowing (routeMatches (QString from) (QString to))
          (JSMap.values (busRoutes st)) = Some matching
     /\ map RouteResult.route_id results = map Route.id matching
     /\ forall route, In route (JSMap.values (busRoutes st)) ->
          ((exists res, In res results /\ routeResult M st route = Some res)
           <-> routeMatches (QString from) (QString to) route = Some true))
  /\ (forall route,
        routeMatches (QString from) (QString to) route = Some true <->
        (exists stop, In stop (Route.stops route)
           /\ occursIn (toLowerCase from) (toLowerCase (Stop.name stop)))
        /\ (exists stop, In stop (Route.stops route)
              /\ occursIn (toLowerCase to) (toLowerCase (Stop.name stop))))
  /\ (forall route,
        routeMatches (QString from) (QString to) route
        = routeMatches (QString to) (QString from) route)
  /\ (forall clock,
        (exists results,
           search M (Some (QString "Airport")) (Some (QString "City"))
             (initialServer clock) = Ok results
           /\ map RouteResult.route_id results = ["ROUTE_001"])
        /\ (exists results,
              search M (Some (QString "city")) (Some (QString "airport"))
                (initialServer clock) = Ok results
              /\ map RouteResult.route_id results = ["ROUTE_001"])
        /\ search M (Some (QString "Nowhere")) (Some (QString "Airport"))
             (initialServer clock) = Ok []
        /\ (exists results,
              search M (Some (QString "ark")) (Some (QString "tat"))
                (initialServer clock) = Ok results
              /\ map RouteResult.route_id results = ["ROUTE_002"])).
Proof.
  intros Hf Ht. split; [|split; [|split]].
  - destruct (search_filters M from to st Hf Ht) as (results & Hres & HF).
    exists results, (filter (stringsMatch from to) (JSMap.values (busRoutes st))).
    split; [exact Hres|]. split; [apply filter_strings|]. split.
    + clear Hres. induction HF as [|route res l ys Hr HF IH]; simpl; [reflexivity|].
      rewrite IH. f_equal. unfold routeResult in Hr.
      destruct (traverse (busResult M st route) (Route.buses route)); [|discriminate].
      now injection Hr as <-.
    + intros route Hin. rewrite routeMatches_true. split.
      * intros (res & Hres_in & Hr).
        destruct (Forall2_in_right _ _ _ _ HF Hres_in) as (route' & Hin' & Hr').
        rewrite (routeResult_inj _ _ _ _ _ Hr Hr').
        now apply filter_In in Hin' as [_ Hm].
      * intros Hm.
        apply (Forall2_in_left _ _ _ route HF). apply filter_In. now split.
  - intros route. rewrite routeMatches_true, routeMatches_iff.
    split; intros [(s1 & Hin1 & H1) (s2 & Hin2 & H2)]; split;
      try (exists s1; split; [exact Hin1 | now apply includes_occursIn]);
      exists s2; split; try exact Hin2; now apply includes_occursIn.
  - intros route. apply routeMatches_sym.
  - intros clock. split; [|split; [|split]].
    + eexists. split; reflexivity.
    + eexists. split; reflexivity.
    + reflexivity.
    + eexists. split; reflexivity.
Qed.

Lemma search_matches_both_endpoints_witness :
  exists results matching,
    search specialMath (Some (QString "ity c")) (Some (QString "irpo")) exampleServer
    = Ok results
    /\ filterThrowing (routeMatches (QString "ity c") (QString "irpo"))
         (JSMap.values (busRoutes exampleServer)) = Some matching
    /\ map RouteResult.route_id results = map Route.id matching
    /\ forall route, In route (JSMap.values (busRoutes exampleServer)) ->
         ((exists res, In res results
                       /\ routeResult specialMath exampleServer route = Some res)
          <-> routeMatches (QString "ity c") (QString "irpo") route = Some true).
Proof.
  apply (search_matches_both_endpoints specialMath "ity c" "irpo" exampleServer);
    discriminate.
Defined.

(* ================================================================== *)
(** ** Rounding to nearest stays below a representable bound *)
(* ================================================================== *)

Lemma fexp_eq e : fexp prec emax e = Z.max (e - 53) (-1074).
Proof. reflexivity. Qed.

Lemma pow2_pos k : 0 <= k -> 0 < 2 ^ k.
Proof. intros. apply Z.pow_pos_nonneg; lia. Qed.

Lemma pow2_add a b : 0 <= a -> 0 <= b -> 2 ^ (a + b) = 2 ^ a * 2 ^ b.
Proof. intros. apply Z.pow_add_r; lia. Qed.

Lemma pow2_le a b : 0 <= a <= b -> 2 ^ a <= 2 ^ b.
Proof. intros. apply Z.pow_le_mono_r; lia. Qed.

Lemma pow2_pred k : 0 < k -> 2 ^ k = 2 * 2 ^ (k - 1).
Proof.
  intros Hk. replace k with (Z.succ (k - 1)) at 1 by lia.
  apply Z.pow_succ_r. lia.
Qed.

Lemma digits2_pos_spec m :
  2 ^ (Zpos (digits2_pos m) - 1) <= Zpos m < 2 ^ Zpos (digits2_pos m).
Proof.
  induction m as [p IH | p IH |]; cbn [digits2_pos].
  - rewrite Pos2Z.inj_succ, (Pos2Z.inj_xI p).
    replace (Z.succ (Zpos (digits2_pos p)) - 1) with (Zpos (digits2_pos p)) by lia.
    assert (H1 := pow2_pred (Zpos (digits2_pos p)) ltac:(lia)).
    assert (H2 := Z.pow_succ_r 2 (Zpos (digits2_pos p)) ltac:(lia)).
    lia.
  - rewrite Pos2Z.inj_succ, (Pos2Z.inj_xO p).
    replace (Z.succ (Zpos (digits2_pos p)) - 1) with (Zpos (digits2_pos p)) by lia.
    assert (H1 := pow2_pred (Zpos (digits2_pos p)) ltac:(lia)).
    assert (H2 := Z.pow_succ_r 2 (Zpos (digits2_pos p)) ltac:(lia)).
    lia.
  - change (1 <= 1 < 2). lia.
Qed.

Lemma digits2_pos_le m k : 0 <= k -> Zpos m < 2 ^ k -> Zpos (digits2_pos m) <= k.
Proof.
  intros Hk Hm. destruct (digits2_pos_spec m) as [Hlo _].
  destruct (Z_le_gt_dec (Zpos (digits2_pos m)) k) as [|Hgt]; [assumption|].
  assert (2 ^ k <= 2 ^ (Zpos (digits2_pos m) - 1)) by (apply pow2_le; lia). lia.
Qed.

Lemma digits2_pos_ge m k : 2 ^ (k - 1) <= Zpos m -> k <= Zpos (digits2_pos m).
Proof.
  intros Hm. destruct (digits2_pos_spec m) as [_ Hhi].
  destruct (Z_le_gt_dec k (Zpos (digits2_pos m))) as [|Hgt]; [assumption|].
  assert (2 ^ (Zpos (digits2_pos m)) <= 2 ^ (k - 1)) by (apply pow2_le; lia). lia.
Qed.

Lemma shr_1_rel a : 0 <= shr_m a -> shr_rel 1 a (shr_1 a).
Proof.
  destruct a as [m r s]. cbn [shr_m shr_r shr_s]. intros Hm. unfold shr_rel.
  change (2 ^ 1) with 2.
  destruct m as [|[p|p|]|p]; cbn [shr_1 shr_m shr_r shr_s]; try lia.
  - split; [reflexivity|]. split; [lia|]. intros _ -> ->. auto.
  - split; [|split; [lia|]].
    + rewrite (Pos2Z.inj_xI p). apply Z.div_unique with (r := 1); lia.
    + rewrite (Pos2Z.inj_xI p). intros H. exfalso.
      rewrite Z.add_comm, Z.mul_comm, Z.mod_add in H by lia. discriminate H.
  - split; [|split; [lia|]].
    + rewrite (Pos2Z.inj_xO p). apply Z.div_unique with (r := 0); lia.
    + intros _ -> ->. auto.
  - split; [reflexivity|]. split; [lia|]. intros H. discriminate H.
Qed.

Lemma shr_rel_trans j k a b c :
  0 <= j -> 0 <= k -> 0 <= shr_m a ->
  shr_rel j a b -> shr_rel k b c -> shr_rel (j + k) a c.
Proof.
  intros Hj Hk Ha (Hb & Hb0 & Hbx) (Hc & Hc0 & Hcx). unfold shr_rel.
  assert (Hpj := pow2_pos j Hj). assert (Hpk := pow2_pos k Hk).
  rewrite pow2_add by assumption.
  split; [|split; [assumption|]].
  - rewrite Hc, Hb. apply Z.div_div; lia.
  - intros Hmod Hr Hs.
    assert (Hdiv : shr_m a mod 2 ^ j = 0 /\ shr_m b mod 2 ^ k = 0).
    { rewrite Z.rem_mul_r in Hmod by lia. rewrite <- Hb in Hmod.
      assert (0 <= shr_m a mod 2 ^ j < 2 ^ j) by (apply Z.mod_pos_bound; lia).
      assert (0 <= shr_m b mod 2 ^ k < 2 ^ k) by (apply Z.mod_pos_bound; lia).
      nia. }
    destruct Hdiv as [Hd1 Hd2]. destruct (Hbx Hd1 Hr Hs) as [Hr' Hs'].
    now apply Hcx.
Qed.

Lemma iter_pos_shr_rel n a :
  0 <= shr_m a -> shr_rel (Zpos n) a (iter_pos shr_1 n a).
Proof.
  revert a. induction n as [n IH | n IH |]; intros a Ha; cbn [iter_pos].
  - assert (H1 := shr_1_rel a Ha). assert (Hb : 0 <= shr_m (shr_1 a)) by apply H1.
    assert (H2 := IH _ Hb).
    assert (Hc : 0 <= shr_m (iter_pos shr_1 n (shr_1 a))) by apply H2.
    assert (H3 := IH _ Hc).
    replace (Zpos n~1) with (1 + (Zpos n + Zpos n)) by lia.
    eapply shr_rel_trans; try eassumption; try lia.
    eapply shr_rel_trans; try eassumption; lia.
  - assert (H2 := IH _ Ha).
    assert (Hc : 0 <= shr_m (iter_pos shr_1 n a)) by apply H2.
    assert (H3 := IH _ Hc).
    replace (Zpos n~0) with (Zpos n + Zpos n) by lia.
    eapply shr_rel_trans; try eassumption; lia.
  - now apply shr_1_rel.
Qed.

Lemma shr_rel_refl a : 0 <= shr_m a -> shr_rel 0 a a.
Proof.
  intros Ha. unfold shr_rel. change (2 ^ 0) with 1. rewrite Z.div_1_r. auto.
Qed.

Lemma shr_spec a e n :
  0 <= shr_m a -> 0 <= n ->
  shr_rel n a (fst (shr a e n)) /\ snd (shr a e n) = e + n.
Proof.
  intros Ha Hn. destruct n as [|p|p]; cbn [shr fst snd]; try lia.
  - split; [now apply shr_rel_refl | lia].
  - split; [now apply iter_pos_shr_rel | reflexivity].
Qed.

Lemma round_nearest_even_bounds m r s :
  let m' := round_nearest_even m (loc_of_shr_record (Build_shr_record m r s)) in
  m <= m' <= m + 1 /\ (r = false -> s = false -> m' = m).
Proof.
  destruct r, s; cbn; try destruct (Z.even m); split; try lia; try discriminate; auto.
Qed.

Lemma le_val_at m1 e1 m2 e2 l :
  l <= e1 -> l <= e2 ->
  (le_val m1 e1 m2 e2 <-> m1 * 2 ^ (e1 - l) <= m2 * 2 ^ (e2 - l)).
Proof.
  intros H1 H2. unfold le_val. set (k := Z.min e1 e2).
  assert (Hk : l <= k) by lia.
  replace (e1 - l) with ((e1 - k) + (k - l)) by lia.
  replace (e2 - l) with ((e2 - k) + (k - l)) by lia.
  rewrite !pow2_add by lia.
  assert (Hp := pow2_pos (k - l) ltac:(lia)).
  rewrite !Z.mul_assoc. split; intros H.
  - apply Z.mul_le_mono_nonneg_r; lia.
  - apply Z.mul_le_mono_pos_r in H; lia.
Qed.

Lemma round_aux_below s mx ex mb eb :
  ex <= fexp prec emax (Zpos (digits2_pos mx) + ex) ->
  bounded prec emax mb eb = true ->
  le_val (Zpos mx) ex (Zpos mb) eb ->
  below s mb eb (binary_round_aux prec emax s (Zpos mx) ex loc_Exact).
Proof.
  intros Hin Hb Hval.
  unfold bounded, canonical_mantissa in Hb. apply andb_true_iff in Hb as [Hcan Hmax].
  apply Z.eqb_eq in Hcan. apply Z.leb_le in Hmax. change (emax - prec) with 971 in Hmax.
  rewrite fexp_eq in Hin, Hcan.
  destruct (digits2_pos_spec mx) as [Hdlo Hdhi].
  destruct (digits2_pos_spec mb) as [Hblo Hbhi].
  remember (Zpos (digits2_pos mx)) as d eqn:Hd.
  remember (Zpos (digits2_pos mb)) as db eqn:Hdb.
  assert (Hdpos : 0 < d) by (subst d; lia).
  assert (Hdbpos : 0 < db) by (subst db; lia).
  assert (Hmag : d + ex <= db + eb).
  { destruct (Z_le_gt_dec (d + ex) (db + eb)) as [|Hgt]; [assumption|exfalso].
    unfold le_val in Hval. remember (Z.min ex eb) as l.
    assert (Hl1 : l <= ex) by lia. assert (Hl2 : l <= eb) by lia.
    assert (Hp2 := pow2_pos (eb - l) ltac:(lia)).
    assert (Hp1 := pow2_pos (ex - l) ltac:(lia)).
    assert (H1 : Zpos mb * 2 ^ (eb - l) < 2 ^ db * 2 ^ (eb - l))
      by (apply Z.mul_lt_mono_pos_r; lia).
    assert (H2 : 2 ^ db * 2 ^ (eb - l) = 2 ^ (db + (eb - l)))
      by (rewrite pow2_add by lia; reflexivity).
    assert (H3 : 2 ^ (db + (eb - l)) <= 2 ^ ((d - 1) + (ex - l)))
      by (apply pow2_le; lia).
    assert (H4 : 2 ^ ((d - 1) + (ex - l)) = 2 ^ (d - 1) * 2 ^ (ex - l))
      by (rewrite pow2_add by lia; reflexivity).
    assert (H5 : 2 ^ (d - 1) * 2 ^ (ex - l) <= Zpos mx * 2 ^ (ex - l))
      by (apply Z.mul_le_mono_nonneg_r; lia).
    lia. }
  remember (Z.max (d + ex - 53) (-1074)) as E eqn:HE.
  assert (HEb : E <= eb) by lia.
  remember (E - ex) as n eqn:Hn.
  assert (Hn0 : 0 <= n) by lia.
  remember (Zpos mb * 2 ^ (eb - E)) as Kb eqn:HKb.
  assert (Hpn := pow2_pos n Hn0).
  assert (HpE := pow2_pos (eb - E) ltac:(lia)).
  assert (Hmx : Zpos mx <= Kb * 2 ^ n).
  { apply (le_val_at _ _ _ _ ex) in Hval; [|lia|lia].
    rewrite Z.sub_diag in Hval. change (2 ^ 0) with 1 in Hval.
    replace (eb - ex) with ((eb - E) + n) in Hval by lia.
    rewrite pow2_add in Hval by lia. subst Kb. lia. }
  unfold binary_round_aux. unfold shr_fexp at 1. cbn [Zdigits2 shr_record_of_loc].
  rewrite fexp_eq, <- Hd, <- HE, <- Hn.
  destruct (shr_spec (Build_shr_record (Zpos mx) false false) ex n) as [Hrel He1];
    [cbn; lia | assumption |].
  destruct (shr {| shr_m := Z.pos mx; shr_r := false; shr_s := false |} ex n)
    as [[m1 r1 s1] e1] eqn:Hs1.
  cbn [fst snd] in Hrel, He1. destruct Hrel as (Hm1 & Hm1pos & Hexact).
  cbn [shr_m shr_r shr_s] in Hm1, Hm1pos, Hexact |- *.
  assert (He1' : e1 = E) by lia. clear He1. subst e1.
  destruct (round_nearest_even_bounds m1 r1 s1) as [Hrb Hrx]. cbv zeta in Hrb, Hrx.
  remember (round_nearest_even m1 (loc_of_shr_record (Build_shr_record m1 r1 s1))) as m1' eqn:Hm1'.
  assert (Hm1K : m1' <= Kb).
  { assert (Hdiv : m1 * 2 ^ n <= Zpos mx < (m1 + 1) * 2 ^ n).
    { rewrite Hm1.
      assert (Hmod := Z.mod_pos_bound (Zpos mx) (2 ^ n) Hpn).
      assert (Hdm := Z.div_mod (Zpos mx) (2 ^ n) ltac:(lia)). nia. }
    destruct (Z_lt_le_dec m1 Kb) as [Hlt | Hge]; [lia|].
    assert (HmK : m1 = Kb) by nia.
    assert (Hex : Zpos mx = Kb * 2 ^ n) by nia.
    assert (Hmod0 : Zpos mx mod 2 ^ n = 0) by (rewrite Hex; apply Z.mod_mul; lia).
    destruct (Hexact Hmod0 eq_refl eq_refl) as [-> ->].
    rewrite (Hrx eq_refl eq_refl). lia. }
  assert (Hmb53 : Zpos mb < 2 ^ 53).
  { assert (2 ^ db <= 2 ^ 53) by (apply pow2_le; lia). lia. }
  assert (Hord : forall m, m <= Kb -> E = eb -> m <= Zpos mb).
  { intros m Hm HEe. subst Kb. rewrite HEe, Z.sub_diag in Hm.
    change (2 ^ 0) with 1 in Hm. lia. }
  assert (Hsmall : m1' < 2 ^ 53 ->
            below s mb eb
              (let '(mrs'', e'') := shr_fexp prec emax m1' E loc_Exact in
               match shr_m mrs'' with
               | 0 => S754_zero s
               | Z.pos m =>
                   if e'' <=? emax - prec then S754_finite s m e''
                   else S754_infinity s
               | Z.neg _ => S754_nan
               end)).
  { intros Hlt. destruct m1' as [|p|p]; [| |lia].
    - unfold shr_fexp. cbn [Zdigits2 shr_record_of_loc]. rewrite fexp_eq.
      replace (Z.max (0 + E - 53) (-1074) - E) with 0.
      + cbn. now left.
      + destruct (Z_le_gt_dec (-1074) (d + ex - 53)).
        * assert (2 ^ 52 * 2 ^ n <= Zpos mx).
          { replace (2 ^ 52 * 2 ^ n) with (2 ^ (d - 1)); [assumption|].
            rewrite <- pow2_add by lia. f_equal. lia. }
          assert (2 ^ 52 <= m1).
          { rewrite Hm1. apply Z.div_le_lower_bound; lia. }
          change (2 ^ 52) with 4503599627370496 in *. lia.
        * lia.
    - assert (Hcanp : Z.max (Zpos (digits2_pos p) + E - 53) (-1074) = E).
      { assert (Hdp : Zpos (digits2_pos p) <= 53) by (apply digits2_pos_le; lia).
        destruct (Z_le_gt_dec (-1074) (d + ex - 53)).
        - assert (2 ^ 52 * 2 ^ n <= Zpos mx).
          { replace (2 ^ 52 * 2 ^ n) with (2 ^ (d - 1)); [assumption|].
            rewrite <- pow2_add by lia. f_equal. lia. }
          assert (2 ^ 52 <= m1).
          { rewrite Hm1. apply Z.div_le_lower_bound; lia. }
          assert (53 <= Zpos (digits2_pos p)).
          { apply digits2_pos_ge. change (53 - 1) with 52. lia. }
          lia.
        - lia. }
      unfold shr_fexp. cbn [Zdigits2 shr_record_of_loc]. rewrite fexp_eq, Hcanp.
      rewrite Z.sub_diag. cbn [shr shr_m].
      change (emax - prec) with 971.
      destruct (Z.leb_spec E 971); [|lia].
      right. exists p, E. split; [reflexivity|]. split.
      + unfold bounded, canonical_mantissa. rewrite fexp_eq, Hcanp, Z.eqb_refl.
        change (emax - prec) with 971. apply Z.leb_le. lia.
      + destruct (Z.eq_dec E eb) as [Heq | Hne]; [right | left; lia].
        split; [assumption|]. now apply Hord. }
  destruct (Z_lt_le_dec m1' (2 ^ 53)) as [Hlt | Hge]; [now apply Hsmall|].
  (* the rounding carried into the next binade *)
  assert (Hnorm : -1074 <= d + ex - 53).
  { destruct (Z_le_gt_dec (-1074) (d + ex - 53)); [assumption|exfalso].
    assert (Zpos mx < 2 ^ 52 * 2 ^ n).
    { assert (2 ^ d <= 2 ^ (52 + n)) by (apply pow2_le; lia).
      rewrite pow2_add in * by lia. lia. }
    assert (m1 < 2 ^ 52).
    { rewrite Hm1. apply Z.div_lt_upper_bound; lia. }
    change (2 ^ 52) with 4503599627370496 in *.
    change (2 ^ 53) with 9007199254740992 in *. lia. }
  assert (Hm1lt : m1 < 2 ^ 53).
  { assert (2 ^ d = 2 ^ 53 * 2 ^ n).
    { rewrite <- pow2_add by lia. f_equal. lia. }
    rewrite Hm1. apply Z.div_lt_upper_bound; lia. }
  assert (Hcarry : m1' = 9007199254740992).
  { change (2 ^ 53) with 9007199254740992 in *. lia. }
  assert (HEb1 : E + 1 <= eb).
  { destruct (Z_le_gt_dec (E + 1) eb); [assumption|exfalso].
    assert (E = eb) by lia. assert (m1' <= Zpos mb) by now apply Hord.
    change (2 ^ 53) with 9007199254740992 in *. lia. }
  rewrite Hcarry. unfold shr_fexp. cbn [Zdigits2 shr_record_of_loc digits2_pos Pos.succ].
  rewrite fexp_eq.
  replace (Z.max (54 + E - 53) (-1074) - E) with 1 by lia.
  cbn [shr iter_pos shr_1 shr_m].
  change (emax - prec) with 971.
  destruct (Z.leb_spec (E + 1) 971); [|lia].
  right. exists 4503599627370496%positive, (E + 1). split; [reflexivity|]. split.
  - unfold bounded, canonical_mantissa. rewrite fexp_eq.
    cbn [digits2_pos Pos.succ]. change (emax - prec) with 971.
    apply andb_true_iff. split; [apply Z.eqb_eq | apply Z.leb_le]; lia.
  - destruct (Z.eq_dec (E + 1) eb) as [Heq | Hne]; [right | left; lia].
    split; [assumption|].
    assert (HKb2 : Kb = Zpos mb * 2).
    { subst Kb. replace (eb - E) with 1 by lia. reflexivity. }
    lia.
Qed.







(** Valid finite Numbers are ordered as their exponent and mantissa. *)
Lemma order_le_val m e mb eb :
  bounded prec emax m e = true -> bounded prec emax mb eb = true ->
  e < eb \/ (e = eb /\ Zpos m <= Zpos mb) ->
  le_val (Zpos m) e (Zpos mb) eb.
Proof.
  intros Hm Hb Hord.
  unfold bounded, canonical_mantissa in Hm, Hb.
  apply andb_true_iff in Hm as [Hcm _]. apply andb_true_iff in Hb as [Hcb _].
  apply Z.eqb_eq in Hcm, Hcb. rewrite fexp_eq in Hcm, Hcb.
  destruct Hord as [Hlt | [-> Hle]].
  - apply (le_val_at _ _ _ _ e); [lia | lia |].
    rewrite Z.sub_diag. change (2 ^ 0) with 1.
    destruct (digits2_pos_spec m) as [_ Hmhi].
    destruct (digits2_pos_spec mb) as [Hblo _].
    assert (Hdm : Zpos (digits2_pos m) <= 53) by lia.
    assert (Hdb : Zpos (digits2_pos mb) = 53) by lia.
    rewrite Hdb in Hblo. change (2 ^ (53 - 1)) with 4503599627370496 in Hblo.
    assert (2 ^ Zpos (digits2_pos m) <= 2 ^ 53) by (apply pow2_le; lia).
    change (2 ^ 53) with 9007199254740992 in *.
    assert (2 ^ 1 <= 2 ^ (eb - e)) by (apply pow2_le; lia).
    change (2 ^ 1) with 2 in *. nia.
  - apply (le_val_at _ _ _ _ eb); [lia | lia |].
    rewrite Z.sub_diag. change (2 ^ 0) with 1. lia.
Qed.



(* ================================================================== *)
(** ** The offsets of a tick *)
(* ================================================================== *)


Lemma n1_eq : n1 = S754_finite false 4503599627370496 (-52).
Proof. reflexivity. Qed.









(* ================================================================== *)
(** ** The speed and the status of stored records *)
(* ================================================================== *)







Lemma get_one_Ok v st r :
  get_one v st = Ok r <-> JSMap.get (VString v) (busLocations st) = Some r.
Proof.
  unfold get_one, getLocation. destruct (JSMap.get (VString v) (busLocations st)).
  - split; intros [= ->]; reflexivity.
  - split; discriminate.
Qed.




(* ================================================================== *)
(** ** One tick of the simulation *)
(* ================================================================== *)


(** The change of a coordinate is its offset only up to the rounding of
    the sum.  At latitude 4398046511105, where neighbouring Numbers are
    2^-10 apart, the offset -0.0005 moves the latitude by 0.0009765625:
    a bound on the change itself would not hold, the bound below is on
    the offset. *)
Lemma rounding_can_exceed_offset :
  let lat := parseFloat (VString "4398046511105") in
  let lat' := add lat (coordinateChange zero) in
  changeOf lat lat' = dec 9765625 (-10)
  /\ ltb (dec 5 (-4)) (changeOf lat lat') = true.
Proof. cbv zeta. split; vm_compute; reflexivity. Qed.



(** C1, on its failing input.  After an ingest of BUS_101 at
    speed 1 the record is active; a tick whose [Math.random()] returns 0
    brings the speed to max(0, 1 - 5) = 0 and leaves the status active:
    in this reachable state the status is active although the speed is
    not greater than 0. *)
Theorem tick_keeps_active_at_speed_zero :
  let r := recordOf 2000 "BUS_101" (VString "11.1563") (VString "77.5932")
             (VNumber (ofZ 1)) exampleServer in
  let st := fst (ingest 2000 "BUS_101" (VString "11.1563") (VString "77.5932")
                   (VNumber (ofZ 1)) exampleServer) in
  let r' := moveBus (zeroDraws 10000 (VString "BUS_101")) r in
  reachable (simulateBusMovement (zeroDraws 10000) st)
  /\ get_one "BUS_101" st = Ok r
  /\ Location.status r = active
  /\ gtb (Location.speed r) n0 = true
  /\ get_one "BUS_101" (simulateBusMovement (zeroDraws 10000) st) = Ok r'
  /\ Location.status r' = active
  /\ Location.speed r' = zero
  /\ gtb (Location.speed r') n0 = false.
Proof.
  cbv zeta. split.
  - apply (reachable_step _ (Tick (zeroDraws 10000))).
    + apply (reachable_step (initialServer exampleClock)
               (Ingest 2000 (mkBody (VString "BUS_101") (VString "11.1563")
                               (VString "77.5932") (VNumber (ofZ 1))))).
      * apply reachable_start.
      * reflexivity.
    + intros busId. reflexivity.
  - repeat split; vm_compute; reflexivity.
Qed.

(* ================================================================== *)
(** ** The store over runs of the server *)
(* ================================================================== *)

Lemma get_In_keys {K V : Type} `{KeyLaws K} (k : K) (m : JSMap.t K V) :
  JSMap.get k m <> None <-> In k (JSMap.keys m).
Proof.
  induction m as [|[k' v] m IH]; cbn [JSMap.get JSMap.keys map fst In].
  - split; [congruence | tauto].
  - destruct (key_eqb_spec k' k) as [-> | Hne].
    + split; [auto | discriminate].
    + rewrite IH. split; [auto | intros [Heq | Hin]; [contradiction | exact Hin]].
Qed.

Lemma get_In {K V : Type} `{KeyLaws K} (k : K) (v : V) (m : JSMap.t K V) :
  JSMap.get k m = Some v -> In (k, v) m.
Proof.
  induction m as [|[k' v'] m IH]; cbn [JSMap.get In]; [discriminate|].
  destruct (key_eqb_spec k' k) as [-> | Hne].
  - intros [= ->]. now left.
  - intros Hget. right. auto.
Qed.

Lemma In_get {K V : Type} `{KeyLaws K} (k : K) (v : V) (m : JSMap.t K V) :
  NoDup (JSMap.keys m) -> In (k, v) m -> JSMap.get k m = Some v.
Proof.
  induction m as [|[k' v'] m IH]; cbn [JSMap.get JSMap.keys map fst In]; [tauto|].
  intros Hnd [Heq | Hin]; inversion Hnd as [|? ? Hnotin Hnd']; subst.
  - injection Heq as -> ->. now rewrite key_eqb_refl.
  - destruct (key_eqb_spec k' k) as [-> | Hne]; [|auto].
    exfalso. apply Hnotin. apply in_map_iff. now exists (k, v).
Qed.

Lemma keys_set {K V : Type} `{KeyLaws K} (k : K) (v : V) (m : JSMap.t K V) :
  JSMap.keys (JSMap.set k v m)
  = match JSMap.get k m with
    | Some _ => JSMap.keys m
    | None => (JSMap.keys m ++ [k])%list
    end.
Proof.
  induction m as [|[k' v'] m IH]; [reflexivity|].
  cbn [JSMap.set JSMap.get]. destruct (key_eqb k' k); [reflexivity|].
  change (JSMap.keys ((k', v') :: JSMap.set k v m))
    with (k' :: JSMap.keys (JSMap.set k v m)).
  rewrite IH. now destruct (JSMap.get k m).
Qed.

Lemma keys_tickLocations env (m : JSMap.t value Location.t) :
  JSMap.keys (tickLocations env m) = JSMap.keys m.
Proof.
  induction m as [|[k v] m IH]; [reflexivity|].
  unfold JSMap.keys in *. simpl. now rewrite IH.
Qed.

(** What a request to [POST /api/locations] does to the two maps. *)
Lemma postLocation_effect now body st :
  fst (postLocation now body st)
  = match acceptedId body with
    | Some k =>
        mkServer (JSMap.set k (recordOfBody now body st) (busLocations st))
                 (busRoutes st)
    | None => st
    end.
Proof.
  unfold postLocation, acceptedId. cbv zeta.
  destruct (missingId (body_device_id body) || isUndefined (body_lat body)
            || isUndefined (body_lon body)); [reflexivity|].
  cbn [orb].
  destruct (isNaN (parseFloat (body_lat body))); [reflexivity|].
  destruct (isNaN (parseFloat (body_lon body))); reflexivity.
Qed.

Lemma recordOfBody_store now body m st :
  recordOfBody now body (mkServer m (busRoutes st)) = recordOfBody now body st.
Proof. reflexivity. Qed.


Lemma acceptedId_id body k : acceptedId body = Some k -> k = body_device_id body.
Proof.
  unfold acceptedId.
  destruct (missingId (body_device_id body) || isUndefined (body_lat body)
            || isUndefined (body_lon body) || isNaN (parseFloat (body_lat body))
            || isNaN (parseFloat (body_lon body))); [discriminate|].
  now intros [= <-].
Qed.

Lemma step_routes st e : busRoutes (step st e) = busRoutes st.
Proof. destruct e; [apply postLocation_routes | reflexivity]. Qed.

Lemma run_routes st es : busRoutes (run st es) = busRoutes st.
Proof.
  revert st. induction es as [|e es IH]; intros st; [reflexivity|].
  unfold run in *. cbn [fold_left]. now rewrite IH, step_routes.
Qed.

Lemma step_keys st e :
  exists more,
    JSMap.keys (busLocations (step st e)) = (JSMap.keys (busLocations st) ++ more)%list.
Proof.
  destruct e as [now body | env]; cbn [step].
  - rewrite postLocation_effect. destruct (acceptedId body) as [k|].
    + cbn [busLocations]. rewrite keys_set.
      destruct (JSMap.get k (busLocations st)).
      * exists []. now rewrite app_nil_r.
      * now exists [k].
    + exists []. now rewrite app_nil_r.
  - exists []. unfold simulateBusMovement. cbn [busLocations].
    now rewrite keys_tickLocations, app_nil_r.
Qed.

Lemma run_keys st es :
  exists more,
    JSMap.keys (busLocations (run st es)) = (JSMap.keys (busLocations st) ++ more)%list.
Proof.
  revert st. induction es as [|e es IH]; intros st.
  - exists []. now rewrite app_nil_r.
  - unfold run in *. cbn [fold_left].
    destruct (IH (step st e)) as [more2 H2]. destruct (step_keys st e) as [more1 H1].
    exists (more1 ++ more2)%list. now rewrite H2, H1, app_assoc.
Qed.

(** X2. No operation removes a record or reorders the store: after any
    sequence of ingests and ticks the ids of the store are the earlier
    ids, in the same order, followed by the ids added since; so a vehicle
    that [get_one] finds is found ever after. *)
Theorem records_are_never_deleted :
  forall st es,
    (exists more,
       JSMap.keys (busLocations (run st es))
       = (JSMap.keys (busLocations st) ++ more)%list)
    /\ (forall v r, get_one v st = Ok r -> exists r', get_one v (run st es) = Ok r').
Proof.
  intros st es. destruct (run_keys st es) as [more Hmore].
  split; [now exists more|].
  intros v r Hget. apply get_one_Ok in Hget.
  assert (Hin : In (VString v) (JSMap.keys (busLocations (run st es)))).
  { rewrite Hmore. apply in_or_app. left. apply get_In_keys. congruence. }
  apply get_In_keys in Hin.
  destruct (JSMap.get (VString v) (busLocations (run st es))) as [r'|] eqn:E;
    [|congruence].
  exists r'. now apply get_one_Ok.
Qed.

Lemma reachable_routes st : reachable st -> busRoutes st = sampleRegistry.
Proof.
  induction 1 as [clock | st e Hreach IH Hok]; [reflexivity|].
  now rewrite step_routes.
Qed.

(** X3. The route registry is read-only: no ingest and no tick changes
    [busRoutes], which in every reachable state holds the two sample
    routes, ROUTE_001 before ROUTE_002. *)
Theorem registry_never_changes :
  forall st es,
    busRoutes (run st es) = busRoutes st
    /\ (reachable st ->
        map fst (busRoutes st) = ["ROUTE_001"; "ROUTE_002"]
        /\ JSMap.values (busRoutes st) = sampleRoutes).
Proof.
  intros st es. split; [apply run_routes|].
  intros Hreach. rewrite (reachable_routes st Hreach). split; reflexivity.
Qed.

Lemma reachable_keys st :
  reachable st ->
  NoDup (JSMap.keys (busLocations st))
  /\ forall k location, JSMap.get k (busLocations st) = Some location ->
                        Location.device_id location = k.
Proof.
  induction 1 as [clock | st e Hreach [IHnd IHid] Hok].
  - rewrite initial_locations. split.
    + cbn. repeat constructor; cbn; intuition discriminate.
    + intros k location. cbn [JSMap.get].
      destruct (key_eqb_spec (VString "BUS_101") k) as [<- |]; [now intros [= <-]|].
      destruct (key_eqb_spec (VString "BUS_102") k) as [<- |]; [now intros [= <-]|].
      destruct (key_eqb_spec (VString "BUS_201") k) as [<- |]; [now intros [= <-]|].
      destruct (key_eqb_spec (VString "BUS_202") k) as [<- |]; [now intros [= <-]|].
      discriminate.
  - destruct e as [now body | env]; cbn [step].
    + rewrite postLocation_effect. destruct (acceptedId body) as [k0|] eqn:Hacc;
        [|now split].
      apply acceptedId_id in Hacc. cbn [busLocations]. split.
      * rewrite keys_set.
        destruct (JSMap.get k0 (busLocations st)) eqn:Hget; [assumption|].
        apply NoDup_app; [assumption | repeat constructor; cbn; tauto |].
        intros x Hx [<- | []]. apply get_In_keys in Hx. congruence.
      * intros k location. destruct (key_eqb_spec k0 k) as [<- | Hne].
        -- rewrite get_set_same. intros [= <-]. now subst k0.
        -- rewrite get_set_other by assumption. apply IHid.
    + unfold simulateBusMovement. cbn [busLocations]. split.
      * now rewrite keys_tickLocations.
      * intros k location. rewrite get_tickLocations.
        destruct (JSMap.get k (busLocations st)) as [l|] eqn:Hget; [|discriminate].
        cbn [option_map]. intros [= <-].
        rewrite <- (IHid k l Hget). unfold moveBus.
        destruct (Location.status l); reflexivity.
Qed.

(** X1. In every reachable state the store holds one record per
    vehicle id, and each record is stored under its own [device_id]: the
    record the point query returns for an id has that id. *)
Theorem one_record_per_vehicle st :
  reachable st ->
  NoDup (JSMap.keys (busLocations st))
  /\ (forall k r, In (k, r) (JSMap.entries (busLocations st)) -> Location.device_id r = k)
  /\ (forall v r, get_one v st = Ok r -> Location.device_id r = VString v).
Proof.
  intros Hreach. destruct (reachable_keys st Hreach) as [Hnd Hid].
  split; [exact Hnd|]. split.
  - intros k r Hin. apply Hid. now apply In_get.
  - intros v r Hget. apply get_one_Ok in Hget. now apply Hid.
Qed.

Lemma one_record_per_vehicle_witness :
  let st := step exampleServer
              (Ingest 2000 (mkBody (VString "BUS_900") (VString "11.2") (VString "77.6")
                              VUndefined)) in
  NoDup (JSMap.keys (busLocations st))
  /\ (forall k r, In (k, r) (JSMap.entries (busLocations st)) -> Location.device_id r = k)
  /\ (forall v r, get_one v st = Ok r -> Location.device_id r = VString v).
Proof.
  intros st. apply (one_record_per_vehicle st).
  apply reachable_step; [apply reachable_start | reflexivity].
Defined.

(** An ingest may carry a number for its id: the record is stored under
    the number and listed, and the point query, whose parameter is the
    string "101", does not find it. *)
Lemma numeric_id_is_listed_not_found :
  let body := mkBody (VNumber (ofZ 101)) (VString "11.2") (VString "77.6") VUndefined in
  let st := step exampleServer (Ingest 2000 body) in
  reachable st
  /\ In (recordOfBody 2000 body exampleServer) (getLocations st)
  /\ Location.device_id (recordOfBody 2000 body exampleServer) = VNumber (ofZ 101)
  /\ NotFound (get_one "101" st).
Proof.
  cbv zeta. split; [apply reachable_step; [apply reachable_start | reflexivity]|].
  split; [vm_compute; tauto|]. split; reflexivity.
Qed.

(** X6. The listing and the point query agree on the vehicles whose id
    is a string: in every reachable state a record with the id v, a
    string, is in the reply of [GET /api/locations] exactly when
    [GET /api/locations/v] returns it.  Whatever the point query returns
    is listed; a record whose id is not a string (a number, say) is
    listed and returned by no point query. *)
Theorem listing_agrees_with_point_query st r :
  reachable st ->
  (forall v, Location.device_id r = VString v ->
     (In r (getLocations st) <-> get_one v st = Ok r))
  /\ (forall v, get_one v st = Ok r -> In r (getLocations st))
  /\ ((forall v, Location.device_id r <> VString v) ->
      forall v, get_one v st <> Ok r).
Proof.
  intros Hreach. destruct (reachable_keys st Hreach) as [Hnd Hid].
  assert (Hlisted : forall v, get_one v st = Ok r -> In r (getLocations st)).
  { intros v Hget. apply get_one_Ok, get_In in Hget.
    unfold getLocations, JSMap.values. apply in_map_iff. now exists (VString v, r). }
  split; [|split; [exact Hlisted|]].
  - intros v Hv. split; [|apply Hlisted].
    unfold getLocations, JSMap.values. intros Hin.
    apply in_map_iff in Hin as ([k r'] & Heq & Hin). cbn in Heq. subst r'.
    assert (Hget := In_get k r _ Hnd Hin).
    apply get_one_Ok. rewrite <- Hv, (Hid k r Hget). exact Hget.
  - intros Hno v Hget. apply get_one_Ok in Hget. apply (Hno v). now apply Hid.
Qed.

Lemma listing_agrees_with_point_query_witness :
  let st := step exampleServer
              (Ingest 2000 (mkBody (VString "BUS_900") (VString "11.2") (VString "77.6")
                              VUndefined)) in
  let r := recordOf 2000 "BUS_900" (VString "11.2") (VString "77.6") VUndefined
             exampleServer in
  (forall v, Location.device_id r = VString v ->
     (In r (getLocations st) <-> get_one v st = Ok r))
  /\ (forall v, get_one v st = Ok r -> In r (getLocations st))
  /\ ((forall v, Location.device_id r <> VString v) ->
      forall v, get_one v st <> Ok r).
Proof.
  intros st r. apply (listing_agrees_with_point_query st r).
  apply reachable_step; [apply reachable_start | reflexivity].
Defined.

(** X16. The route of a vehicle is resolved by first match: the id
    returned is that of the first registry entry, in registry order,
    whose bus list holds the vehicle; no entry before it does; and the
    result is [null] exactly when no entry lists the vehicle, as is the
    case of every [device_id] that is not a string. *)
Theorem findRoute_first_match :
  forall device_id entries,
    (forall id, findRoute device_id entries = Some id ->
       exists v pre route post,
         device_id = VString v
         /\ entries = (pre ++ (id, route) :: post)%list
         /\ In v (Route.buses route)
         /\ forall id' route', In (id', route') pre -> ~ In v (Route.buses route'))
    /\ (findRoute device_id entries = None <->
        forall v id route,
          device_id = VString v -> In (id, route) entries -> ~ In v (Route.buses route)).
Proof.
  intros device_id entries.
  assert (Hcases : (exists v, device_id = VString v) \/ forall v, device_id <> VString v).
  { destruct device_id as [| | b | x | s]; try (right; intros v; discriminate).
    left. now exists s. }
  destruct Hcases as [[v ->] | Hno].
  - split.
    + intros id Hid. destruct (findRoute_Some v entries id Hid)
        as (pre & route & post & He & Hin & Hpre).
      now exists v, pre, route, post.
    + rewrite findRoute_None. split.
      * intros Hnone v' id route [= <-]. apply Hnone.
      * intros Hnone id route. now apply (Hnone v).
  - rewrite (findRoute_not_string device_id entries Hno). split; [discriminate|].
    split; [|reflexivity]. intros _ v id route Hv. now destruct (Hno v).
Qed.

Lemma reachable_route st :
  reachable st ->
  forall k location, JSMap.get k (busLocations st) = Some location ->
                     Location.route_id location = findRoute k sampleRegistry.
Proof.
  induction 1 as [clock | st e Hreach IH Hok].
  - intros k location. rewrite initial_locations. cbn [JSMap.get].
    destruct (key_eqb_spec (VString "BUS_101") k) as [<- |]; [now intros [= <-]|].
    destruct (key_eqb_spec (VString "BUS_102") k) as [<- |]; [now intros [= <-]|].
    destruct (key_eqb_spec (VString "BUS_201") k) as [<- |]; [now intros [= <-]|].
    destruct (key_eqb_spec (VString "BUS_202") k) as [<- |]; [now intros [= <-]|].
    discriminate.
  - intros k location. destruct e as [now body | env]; cbn [step].
    + rewrite postLocation_effect. destruct (acceptedId body) as [k0|] eqn:Hacc;
        [|apply IH].
      apply acceptedId_id in Hacc.
      cbn [busLocations]. destruct (key_eqb_spec k0 k) as [<- | Hne].
      * rewrite get_set_same. intros [= <-]. unfold recordOfBody.
        cbn [Location.route_id]. now rewrite (reachable_routes st Hreach), Hacc.
      * rewrite get_set_other by assumption. apply IH.
    + unfold simulateBusMovement. cbn [busLocations]. rewrite get_tickLocations.
      destruct (JSMap.get k (busLocations st)) as [l|] eqn:Hget; [|discriminate].
      cbn [option_map]. intros [= <-]. rewrite <- (IH k l Hget). unfold moveBus.
      destruct (Location.status l); reflexivity.
Qed.



Lemma length_keys {K V : Type} `{Key K} (m : JSMap.t K V) :
  List.length (JSMap.keys m) = List.length m.
Proof. unfold JSMap.keys. apply length_map. Qed.

(** X5. [totalBuses] of the health check is the number of records of
    the listing.  A tick never changes it; a request to ingest leaves it
    as it is, or raises it by one when it is accepted for a vehicle that
    had no record; and in every reachable state it is at least 4. *)
Theorem health_counts_records :
  forall now st,
    Health.totalBuses (getHealth now st) = Z.of_nat (List.length (getLocations st))
    /\ (forall env,
          Health.totalBuses (getHealth now (simulateBusMovement env st))
          = Health.totalBuses (getHealth now st))
    /\ (forall t body,
          let st' := fst (postLocation t body st) in
          Health.totalBuses (getHealth now st') = Health.totalBuses (getHealth now st)
          \/ (Health.totalBuses (getHealth now st') = Health.totalBuses (getHealth now st) + 1
              /\ exists k, acceptedId body = Some k
                           /\ JSMap.get k (busLocations st) = None
                           /\ forall v, k = VString v -> NotFound (get_one v st)))
    /\ (reachable st -> 4 <= Health.totalBuses (getHealth now st)).
Proof.
  intros now st. unfold getHealth. cbn [Health.totalBuses].
  split; [|split; [|split]].
  - unfold getLocations, JSMap.values. now rewrite length_map.
  - intros env. unfold simulateBusMovement, tickLocations. cbn [busLocations].
    now rewrite length_map.
  - intros t body. rewrite postLocation_effect.
    destruct (acceptedId body) as [k|]; [|now left]. cbn [busLocations].
    rewrite <- !length_keys, keys_set.
    destruct (JSMap.get k (busLocations st)) eqn:E; [now left|].
    right. split.
    + rewrite length_app. cbn [List.length]. lia.
    + exists k. split; [reflexivity|]. split; [exact E|].
      intros v ->. unfold NotFound, get_one, getLocation. now rewrite E.
  - intros Hreach. induction Hreach as [clock | st e Hreach IH Hok].
    + rewrite initial_locations. cbn. lia.
    + destruct (step_keys st e) as [more Hmore].
      rewrite <- length_keys, Hmore, length_app, length_keys. lia.
Qed.

(** X7. An ingest for one vehicle touches no other vehicle: whatever
    the request and its outcome, the point query of every id other than
    the one in the body answers as before. *)
Theorem ingest_leaves_other_vehicles now body st v :
  body_device_id body <> VString v ->
  get_one v (fst (postLocation now body st)) = get_one v st.
Proof.
  intros Hne. rewrite postLocation_effect.
  destruct (acceptedId body) as [k|] eqn:Hacc; [|reflexivity].
  apply acceptedId_id in Hacc.
  unfold get_one, getLocation. cbn [busLocations].
  rewrite get_set_other; [reflexivity | congruence].
Qed.

Lemma ingest_leaves_other_vehicles_witness :
  get_one "BUS_102"
    (fst (postLocation 2000 (mkBody (VString "BUS_101") (VString "11.2") (VString "77.6")
                               (VNumber (ofZ 35))) exampleServer))
  = get_one "BUS_102" exampleServer.
Proof.
  apply (ingest_leaves_other_vehicles 2000
           (mkBody (VString "BUS_101") (VString "11.2") (VString "77.6") (VNumber (ofZ 35)))
           exampleServer "BUS_102").
  discriminate.
Defined.

(** X8. Ingests for two different vehicles commute: in either order
    they leave every point query, and the registry, the same. *)
Theorem ingests_of_different_vehicles_commute now1 body1 now2 body2 st :
  body_device_id body1 <> body_device_id body2 ->
  let st12 := fst (postLocation now2 body2 (fst (postLocation now1 body1 st))) in
  let st21 := fst (postLocation now1 body1 (fst (postLocation now2 body2 st))) in
  (forall v, get_one v st12 = get_one v st21) /\ busRoutes st12 = busRoutes st21.
Proof.
  intros Hne st12 st21. subst st12 st21. split.
  - intros v. rewrite !postLocation_effect.
    destruct (acceptedId body1) as [k1|] eqn:H1;
      destruct (acceptedId body2) as [k2|] eqn:H2; try reflexivity.
    apply acceptedId_id in H1, H2.
    assert (Hk : k1 <> k2) by congruence.
    unfold get_one, getLocation. cbn [busLocations busRoutes].
    rewrite !recordOfBody_store.
    destruct (key_eqb_spec k1 (VString v)) as [E1 | E1].
    + rewrite <- E1.
      rewrite get_set_same, get_set_other by congruence. now rewrite get_set_same.
    + rewrite (get_set_other k1 (VString v)) by assumption.
      destruct (key_eqb_spec k2 (VString v)) as [E2 | E2].
      * rewrite <- E2. now rewrite !get_set_same.
      * rewrite !(get_set_other k2 (VString v)) by assumption.
        now rewrite (get_set_other k1 (VString v)) by assumption.
  - now rewrite !postLocation_routes.
Qed.

Lemma ingests_of_different_vehicles_commute_witness :
  let body1 := mkBody (VString "BUS_101") (VString "11.2") (VString "77.6") (VNumber (ofZ 35)) in
  let body2 := mkBody (VString "BUS_900") (VString "11.3") (VString "77.7") VUndefined in
  let st12 := fst (postLocation 3000 body2 (fst (postLocation 2000 body1 exampleServer))) in
  let st21 := fst (postLocation 2000 body1 (fst (postLocation 3000 body2 exampleServer))) in
  (forall v, get_one v st12 = get_one v st21) /\ busRoutes st12 = busRoutes st21.
Proof.
  intros body1 body2.
  apply (ingests_of_different_vehicles_commute 2000 body1 3000 body2 exampleServer).
  discriminate.
Defined.

(** X9. The speed is optional: when it is absent, does not parse, or
    parses to a zero, an accepted ingest stores the speed +0 and the
    status stopped. *)
Theorem ingest_defaults_speed now v lat lon speed st :
  v <> "" ->
  isNaN (parseFloat lat) = false ->
  isNaN (parseFloat lon) = false ->
  truthy (parseFloat speed) = false ->
  exists r,
    get_one v (fst (ingest now v lat lon speed st)) = Ok r
    /\ Location.speed r = zero
    /\ Location.status r = stopped.
Proof.
  intros Hv Hlat Hlon Hspeed. exists (recordOf now v lat lon speed st).
  split; [now apply get_one_after_accept|].
  unfold recordOf, orZero. cbn [Location.speed Location.status].
  rewrite Hspeed. split; reflexivity.
Qed.

Lemma ingest_defaults_speed_witness :
  exists r,
    get_one "BUS_101"
      (fst (ingest 2000 "BUS_101" (VString "11.2") (VString "77.6") VUndefined
              exampleServer)) = Ok r
    /\ Location.speed r = zero
    /\ Location.status r = stopped.
Proof.
  apply (ingest_defaults_speed 2000 "BUS_101" (VString "11.2") (VString "77.6")
           VUndefined exampleServer);
    [discriminate | reflexivity | reflexivity | reflexivity].
Defined.




Lemma tickLocations_stopped env (m : JSMap.t value Location.t) :
  Forall (fun r => Location.status r = stopped) (JSMap.values m) ->
  tickLocations env m = m.
Proof.
  induction m as [|[k r] m IH]; [reflexivity|].
  unfold JSMap.values. cbn [map snd]. intros H. inversion H as [|? ? Hr Hm]; subst.
  cbn [tickLocations map]. unfold moveBus. rewrite Hr. f_equal.
  apply IH. exact Hm.
Qed.

(** X18. While every record is stopped the simulation does nothing:
    any number of ticks leaves the whole server state as it is.  This is
    so from start-up until the first ingest with a positive speed. *)
Theorem ticks_idle_while_all_stopped envs st :
  Forall (fun r => Location.status r = stopped) (getLocations st) ->
  run st (map Tick envs) = st.
Proof.
  intros Hall. induction envs as [|env envs IH]; [reflexivity|].
  unfold run in *. cbn [map fold_left step].
  assert (Hstep : simulateBusMovement env st = st).
  { unfold simulateBusMovement. rewrite (tickLocations_stopped env _ Hall).
    now destruct st. }
  now rewrite Hstep.
Qed.

Lemma ticks_idle_while_all_stopped_witness :
  run (initialServer exampleClock) (map Tick [zeroDraws 9000; zeroDraws 17000])
  = initialServer exampleClock.
Proof.
  apply (ticks_idle_while_all_stopped [zeroDraws 9000; zeroDraws 17000]
           (initialServer exampleClock)).
  unfold getLocations. rewrite initial_locations. repeat constructor.
Defined.




Lemma reachable_seeded st :
  reachable st ->
  forall v, In v seededBuses -> JSMap.get (VString v) (busLocations st) <> None.
Proof.
  induction 1 as [clock | st e Hreach IH Hok]; intros v Hin.
  - rewrite initial_locations.
    destruct Hin as [<- | [<- | [<- | [<- | []]]]]; discriminate.
  - apply get_In_keys. destruct (step_keys st e) as [more ->].
    apply in_or_app. left. apply get_In_keys. now apply IH.
Qed.

(** X17. In every reachable state [GET /api/routes] lists the two
    sample routes, and every bus of every route comes with a location,
    never [null]: the record that the point query returns for it, whose
    [route_id] is the route it is listed under. *)
Theorem routes_always_carry_locations st :
  reachable st ->
  map RouteView.id (getRoutes st) = ["ROUTE_001"; "ROUTE_002"]
  /\ forall view bus,
       In view (getRoutes st) -> In bus (RouteView.buses view) ->
       exists r, RouteBus.location bus = Some r
                 /\ get_one (RouteBus.id bus) st = Ok r
                 /\ Location.route_id r = Some (RouteView.id view).
Proof.
  intros Hreach. unfold getRoutes. rewrite (reachable_routes st Hreach).
  split; [reflexivity|].
  intros view bus Hview Hbus.
  apply in_map_iff in Hview as (route & <- & Hroute).
  cbn [RouteView.buses RouteView.id] in *.
  apply in_map_iff in Hbus as (busId & <- & HbusId).
  cbn [RouteBus.location RouteBus.id].
  assert (Hseeded : In busId seededBuses).
  { unfold seededBuses. apply in_flat_map. now exists route. }
  assert (Hget := reachable_seeded st Hreach busId Hseeded).
  destruct (JSMap.get (VString busId) (busLocations st)) as [r|] eqn:E; [|congruence].
  exists r. split; [reflexivity|]. split; [now apply get_one_Ok|].
  rewrite (reachable_route st Hreach (VString busId) r E).
  destruct Hroute as [<- | [<- | []]];
    destruct HbusId as [<- | [<- | []]]; reflexivity.
Qed.

Lemma routes_always_carry_locations_witness :
  let st := step exampleServer
              (Ingest 2000 (mkBody (VString "BUS_101") (VString "11.2") (VString "77.6")
                              (VNumber (ofZ 35)))) in
  map RouteView.id (getRoutes st) = ["ROUTE_001"; "ROUTE_002"]
  /\ forall view bus,
       In view (getRoutes st) -> In bus (RouteView.buses view) ->
       exists r, RouteBus.location bus = Some r
                 /\ get_one (RouteBus.id bus) st = Ok r
                 /\ Location.route_id r = Some (RouteView.id view).
Proof.
  intros st. apply (routes_always_carry_locations st).
  apply reachable_step; [apply reachable_start | reflexivity].
Defined.

(* ================================================================== *)
(** ** More on the search *)
(* ================================================================== *)

Lemma classic_stops (routes : list Route.t) :
  (exists route, In route routes /\ Route.stops route <> [])
  \/ (forall route, In route routes -> Route.stops route = []).
Proof.
  induction routes as [|route routes IH].
  - right. intros route [].
  - destruct (Route.stops route) eqn:E.
    + destruct IH as [(route' & Hin & Hne) | Hall].
      * left. exists route'. split; [now right | exact Hne].
      * right. intros route' [<- | Hin]; [exact E | now apply Hall].
    + left. exists route. split; [now left | congruence].
Qed.

Lemma filterThrowing_None {A : Type} (keep : A -> option bool) (l : list A) :
  filterThrowing keep l = None <-> exists x, In x l /\ keep x = None.
Proof.
  induction l as [|x l IH]; cbn [filterThrowing In].
  - split; [discriminate | intros (x & [] & _)].
  - destruct (keep x) as [b|] eqn:Hx.
    + destruct (filterThrowing keep l) as [kept|].
      * split; [discriminate|]. intros (y & [<- | Hin] & Hy); [congruence|].
        assert (Habs : Some kept = None) by (apply IH; now exists y).
        discriminate Habs.
      * split; [|reflexivity]. intros _.
        destruct (proj1 IH eq_refl) as (y & Hin & Hy). exists y. auto.
    + split; [|reflexivity]. intros _. exists x. auto.
Qed.

Lemma filterThrowing_nothing {A : Type} (keep : A -> option bool) (l : list A) :
  (forall x, In x l -> keep x = Some false) -> filterThrowing keep l = Some [].
Proof.
  induction l as [|x l IH]; intros H; cbn [filterThrowing]; [reflexivity|].
  rewrite (H x (or_introl eq_refl)), IH; [reflexivity|].
  intros y Hy. apply H. now right.
Qed.

Lemma lowerCased_None q : lowerCased q = None <-> forall s, q <> QString s.
Proof.
  destruct q as [s | items | fields]; cbn [lowerCased].
  - split; [discriminate | intros H; now destruct (H s)].
  - split; [intros _ s; discriminate | reflexivity].
  - split; [intros _ s; discriminate | reflexivity].
Qed.

Lemma missingParam_not_string q :
  (forall s, q <> QString s) -> missingParam (Some q) = false.
Proof. destruct q as [s | items | fields]; [intros H; now destruct (H s) | | ]; reflexivity. Qed.

(** With a [from] that is not a string the filter throws at the first
    route that has a stop. *)
Lemma routeMatches_from_throws q to route :
  (forall s, q <> QString s) ->
  routeMatches q to route
  = match Route.stops route with [] => Some false | _ :: _ => None end.
Proof.
  intros Hq. apply lowerCased_None in Hq. unfold routeMatches, someIncludes. cbv zeta.
  destruct (Route.stops route) as [|stop stops]; cbn [map]; [reflexivity|].
  now rewrite Hq.
Qed.

(** With a [to] that is not a string it throws at the first route of
    which a stop contains [from]. *)
Lemma routeMatches_to_throws from q route :
  (forall s, q <> QString s) ->
  routeMatches (QString from) q route
  = if existsb (fun name => includes (toLowerCase from) name)
         (map (fun stop => toLowerCase (Stop.name stop)) (Route.stops route))
    then None else Some false.
Proof.
  intros Hq. apply lowerCased_None in Hq. unfold routeMatches, someIncludes. cbv zeta.
  destruct (map (fun stop => toLowerCase (Stop.name stop)) (Route.stops route))
    as [|name names]; [reflexivity|].
  cbn [lowerCased]. rewrite Hq.
  now destruct (existsb (fun name0 => includes (toLowerCase from) name0) (name :: names)).
Qed.

Lemma search_throws M from to st :
  missingParam (Some from) = false -> missingParam (Some to) = false ->
  (exists route, In route (JSMap.values (busRoutes st))
                 /\ routeMatches from to route = None) ->
  search M (Some from) (Some to) st = Error 500 "Internal Server Error".
Proof.
  intros Hf Ht Hex. unfold search. rewrite Hf, Ht. cbn [orb].
  now rewrite (proj2 (filterThrowing_None _ _) Hex).
Qed.

Lemma search_nothing M from to st :
  missingParam (Some from) = false -> missingParam (Some to) = false ->
  (forall route, In route (JSMap.values (busRoutes st))
                 -> routeMatches from to route = Some false) ->
  search M (Some from) (Some to) st = Ok [].
Proof.
  intros Hf Ht Hall. unfold search. rewrite Hf, Ht. cbn [orb].
  now rewrite (filterThrowing_nothing _ _ Hall).
Qed.

(** X12. The replies of the search by status.  It answers 400 exactly
    when [from] or [to] is absent or the empty string, and 200 whenever
    both are non-empty strings: a route that matches has a last stop to
    measure to.  Its only other status is 500, for a parameter that is
    not a string (an array, when the query repeats the name): the call
    of [toLowerCase] throws.  With such a [from] this happens as soon as
    a route of the registry has a stop, so in every reachable state;
    with a string [from] and such a [to] it happens exactly when a stop
    of some route contains [from], and the reply is the empty list
    otherwise. *)
Theorem search_reply_codes :
  forall M from to st,
    (search M from to st = Error 400 "Missing from or to parameter"
     <-> from = None \/ from = Some (QString "") \/ to = None \/ to = Some (QString ""))
    /\ (forall f t, from = Some (QString f) -> to = Some (QString t) ->
          f <> "" -> t <> "" -> exists results, search M from to st = Ok results)
    /\ (forall code error, search M from to st = Error code error ->
          code = 400
          \/ (code = 500
              /\ exists q, (from = Some q \/ to = Some q) /\ forall s, q <> QString s))
    /\ (forall q t, from = Some q -> (forall s, q <> QString s) ->
          to = Some t -> t <> QString "" ->
          (search M from to st = Error 500 "Internal Server Error"
           <-> exists route, In route (JSMap.values (busRoutes st))
                             /\ Route.stops route <> [])
          /\ (reachable st -> search M from to st = Error 500 "Internal Server Error"))
    /\ (forall f q, from = Some (QString f) -> f <> "" ->
          to = Some q -> (forall s, q <> QString s) ->
          (search M from to st = Error 500 "Internal Server Error"
           <-> exists route stop,
                 In route (JSMap.values (busRoutes st)) /\ In stop (Route.stops route)
                 /\ occursIn (toLowerCase f) (toLowerCase (Stop.name stop)))
          /\ (search M from to st = Error 500 "Internal Server Error"
              \/ search M from to st = Ok [])).
Proof.
  intros M from to st.
  assert (Hstring : forall s, s <> "" -> missingParam (Some (QString s)) = false).
  { intros s Hs. destruct s; [contradiction | reflexivity]. }
  assert (Hpresent : forall t, t <> QString "" -> missingParam (Some t) = false).
  { intros t Ht. destruct t as [[|c s] | items | fields]; [contradiction | | | ];
      reflexivity. }
  split; [|split; [|split; [|split]]].
  - destruct from as [qf|]; [|cbn; split; auto].
    destruct to as [qt|]; [|cbn; split; auto].
    unfold search.
    destruct (missingParam (Some qf)) eqn:Hf.
    { cbn [orb]. split; [intros _|reflexivity].
      destruct qf as [[|c s] | items | fields]; try discriminate Hf. auto. }
    destruct (missingParam (Some qt)) eqn:Ht.
    { cbn [orb]. split; [intros _|reflexivity].
      destruct qt as [[|c s] | items | fields]; try discriminate Ht. auto. }
    cbn [orb]. split.
    + destruct (filterThrowing (routeMatches qf qt) (JSMap.values (busRoutes st)));
        [|discriminate].
      destruct (traverse (routeResult M st) l); discriminate.
    + intros [H | [H | [H | H]]]; try discriminate H.
      * injection H as ->. discriminate Hf.
      * injection H as ->. discriminate Ht.
  - intros f t -> -> Hf Ht.
    destruct (search_filters M f t st Hf Ht) as (results & Hres & _). now exists results.
  - intros code error. destruct from as [qf|]; [|cbn; intros [= <- _]; now left].
    destruct to as [qt|]; [|cbn; intros [= <- _]; now left].
    destruct qf as [f | items | fields].
    + destruct qt as [t | items | fields].
      * rewrite search_strings.
        destruct (String.eqb_spec f "") as [|Hf]; [intros [= <- _]; now left|].
        destruct (String.eqb_spec t "") as [|Ht]; [intros [= <- _]; now left|].
        cbn [orb]. destruct (search_filters M f t st Hf Ht) as (results & Hres & _).
        rewrite search_strings in Hres.
        destruct (String.eqb_spec f ""); [contradiction|].
        destruct (String.eqb_spec t ""); [contradiction|]. cbn [orb] in Hres.
        rewrite Hres. discriminate.
      * unfold search. destruct (missingParam (Some (QString f)) || _);
          [intros [= <- _]; now left|].
        intros H. right. split.
        -- destruct (filterThrowing _ _) as [l|]; [|now injection H as <- _].
           destruct (traverse _ l); [discriminate | now injection H as <- _].
        -- exists (QArray items). split; [now right | discriminate].
      * unfold search. destruct (missingParam (Some (QString f)) || _);
          [intros [= <- _]; now left|].
        intros H. right. split.
        -- destruct (filterThrowing _ _) as [l|]; [|now injection H as <- _].
           destruct (traverse _ l); [discriminate | now injection H as <- _].
        -- exists (QObject fields). split; [now right | discriminate].
    + unfold search. destruct (_ || _); [intros [= <- _]; now left|].
      intros H. right. split.
      * destruct (filterThrowing _ _) as [l|]; [|now injection H as <- _].
        destruct (traverse _ l); [discriminate | now injection H as <- _].
      * exists (QArray items). split; [now left | discriminate].
    + unfold search. destruct (_ || _); [intros [= <- _]; now left|].
      intros H. right. split.
      * destruct (filterThrowing _ _) as [l|]; [|now injection H as <- _].
        destruct (traverse _ l); [discriminate | now injection H as <- _].
      * exists (QObject fields). split; [now left | discriminate].
  - intros q t -> Hq -> Ht.
    assert (Hmf := missingParam_not_string q Hq). assert (Hmt := Hpresent t Ht).
    assert (Hiff : search M (Some q) (Some t) st = Error 500 "Internal Server Error"
                   <-> exists route, In route (JSMap.values (busRoutes st))
                                     /\ Route.stops route <> []).
    { split.
      - intros H500.
        destruct (classic_stops (JSMap.values (busRoutes st))) as [Hex | Hnone];
          [exact Hex|].
        rewrite (search_nothing M q t st Hmf Hmt) in H500; [discriminate|].
        intros route Hin. rewrite (routeMatches_from_throws q t route Hq).
        now rewrite (Hnone route Hin).
      - intros (route & Hin & Hstops). apply (search_throws M q t st Hmf Hmt).
        exists route. split; [exact Hin|].
        rewrite (routeMatches_from_throws q t route Hq).
        destruct (Route.stops route); [contradiction | reflexivity]. }
    split; [exact Hiff|]. intros Hreach. apply Hiff.
    rewrite (reachable_routes st Hreach).
    exists (nth 0 sampleRoutes (Route.mk "" "" [] [])). split; [now left | discriminate].
  - intros f q -> Hf -> Hq.
    assert (Hmf := Hstring f Hf). assert (Hmt := missingParam_not_string q Hq).
    set (found := fun route : Route.t =>
           existsb (fun name => includes (toLowerCase f) name)
             (map (fun stop => toLowerCase (Stop.name stop)) (Route.stops route))).
    assert (Hfound : forall route,
              found route = true <->
              exists stop, In stop (Route.stops route)
                           /\ occursIn (toLowerCase f) (toLowerCase (Stop.name stop))).
    { intros route. unfold found. rewrite existsb_exists. split.
      - intros (name & Hin & Hinc). apply in_map_iff in Hin as (stop & <- & Hin).
        exists stop. split; [exact Hin | now apply includes_occursIn].
      - intros (stop & Hin & Hocc). exists (toLowerCase (Stop.name stop)).
        split; [apply in_map_iff; now exists stop | now apply includes_occursIn]. }
    destruct (existsb found (JSMap.values (busRoutes st))) eqn:Hany.
    + apply existsb_exists in Hany as (route & Hin & Hr).
      assert (H500 : search M (Some (QString f)) (Some q) st
                     = Error 500 "Internal Server Error").
      { apply (search_throws M _ _ st Hmf Hmt). exists route. split; [exact Hin|].
        rewrite (routeMatches_to_throws f q route Hq). fold (found route).
        now rewrite Hr. }
      split; [|now left]. split; [intros _|intros _; exact H500].
      apply Hfound in Hr as (stop & Hstop & Hocc). now exists route, stop.
    + assert (Hok : search M (Some (QString f)) (Some q) st = Ok []).
      { apply (search_nothing M _ _ st Hmf Hmt). intros route Hin.
        rewrite (routeMatches_to_throws f q route Hq). fold (found route).
        destruct (found route) eqn:Hr; [|reflexivity].
        assert (Habs : existsb found (JSMap.values (busRoutes st)) = true)
          by (apply existsb_exists; now exists route).
        congruence. }
      split; [|now right]. rewrite Hok. split; [discriminate|].
      intros (route & stop & Hin & Hstop & Hocc). exfalso.
      assert (Habs : existsb found (JSMap.values (busRoutes st)) = true).
      { apply existsb_exists. exists route. split; [exact Hin|].
        apply Hfound. now exists stop. }
      congruence.
Qed.

Lemma toLowerCase_empty s : toLowerCase s = "" <-> s = "".
Proof. destruct s; cbn; split; congruence. Qed.

(** X13. The search is case-insensitive in both parameters: two
    queries whose [from] agree in lower case and whose [to] agree in
    lower case get the same reply. *)
Theorem search_ignores_case M from from' to to' st :
  toLowerCase from = toLowerCase from' ->
  toLowerCase to = toLowerCase to' ->
  search M (Some (QString from)) (Some (QString to)) st
  = search M (Some (QString from')) (Some (QString to')) st.
Proof.
  intros Hf Ht. rewrite !search_strings.
  assert (Hfe : String.eqb from "" = String.eqb from' "").
  { destruct (String.eqb_spec from "") as [-> | H1];
      destruct (String.eqb_spec from' "") as [-> | H2]; try reflexivity.
    - symmetry in Hf. apply (proj1 (toLowerCase_empty from')) in Hf. contradiction.
    - apply (proj1 (toLowerCase_empty from)) in Hf. contradiction. }
  assert (Hte : String.eqb to "" = String.eqb to' "").
  { destruct (String.eqb_spec to "") as [-> | H1];
      destruct (String.eqb_spec to' "") as [-> | H2]; try reflexivity.
    - symmetry in Ht. apply (proj1 (toLowerCase_empty to')) in Ht. contradiction.
    - apply (proj1 (toLowerCase_empty to)) in Ht. contradiction. }
  rewrite Hfe, Hte.
  replace (filter (stringsMatch from to) (JSMap.values (busRoutes st)))
    with (filter (stringsMatch from' to') (JSMap.values (busRoutes st))); [reflexivity|].
  apply filter_ext. intros route. unfold stringsMatch.
  now rewrite (routeMatches_case from' from to' to route).
Qed.

Lemma search_ignores_case_witness :
  search specialMath (Some (QString "AIRPORT")) (Some (QString "cITY")) exampleServer
  = search specialMath (Some (QString "airport")) (Some (QString "City")) exampleServer.
Proof.
  apply (search_ignores_case specialMath "AIRPORT" "airport" "cITY" "City" exampleServer);
    reflexivity.
Defined.

(** X14. What a search result says of a bus.  Every result is that of
    a matching route of the registry, with the buses of the route in
    their order; a bus without a record has no location and the ETA
    "Unknown"; a bus with a record carries that record and the ETA from
    the position and speed of the record to the last stop of the route. *)
Theorem search_result_details M from to st results :
  search M (Some (QString from)) (Some (QString to)) st = Ok results ->
  forall res, In res results ->
    exists route dest,
      In route (JSMap.values (busRoutes st))
      /\ routeMatches (QString from) (QString to) route = Some true
      /\ lastStop route = Some dest
      /\ RouteResult.route_id res = Route.id route
      /\ RouteResult.route_name res = Route.name route
      /\ RouteResult.stops res = Route.stops route
      /\ map BusResult.id (RouteResult.buses res) = Route.buses route
      /\ forall bus, In bus (RouteResult.buses res) ->
           BusResult.route bus = Route.name route
           /\ BusResult.location bus
              = JSMap.get (VString (BusResult.id bus)) (busLocations st)
           /\ BusResult.eta bus
              = match BusResult.location bus with
                | Some l =>
                    calculateETA M (Location.lat l) (Location.lon l)
                      (Stop.lat dest) (Stop.lon dest) (Location.speed l)
                | None => "Unknown"
                end.
Proof.
  intros Hsearch res Hres. rewrite search_strings in Hsearch.
  destruct (String.eqb from "" || String.eqb to ""); [discriminate|].
  destruct (traverse (routeResult M st)
              (filter (stringsMatch from to) (JSMap.values (busRoutes st))))
    as [rs|] eqn:Htr; [|discriminate].
  injection Hsearch as ->. apply traverse_Forall2 in Htr.
  destruct (Forall2_in_right _ _ _ _ Htr Hres) as (route & Hin & Hr).
  apply filter_In in Hin as [Hin Hm].
  destruct (lastStop_some route (routeMatches_stops _ _ _ Hm)) as [dest Hdest].
  exists route, dest. unfold routeResult in Hr.
  destruct (traverse (busResult M st route) (Route.buses route)) as [bs|] eqn:Hbs;
    [|discriminate].
  injection Hr as <-. cbn [RouteResult.route_id RouteResult.route_name
                             RouteResult.stops RouteResult.buses].
  apply traverse_Forall2 in Hbs.
  split; [assumption|]. split; [now apply routeMatches_true|].
  repeat (split; [assumption || reflexivity|]). split.
  - clear - Hbs. induction Hbs as [|x y l ys Hxy HF IH]; cbn; [reflexivity|].
    now rewrite (busResult_id _ _ _ _ _ Hxy), IH.
  - intros bus Hbus.
    destruct (Forall2_in_right _ _ _ _ Hbs Hbus) as (busId & _ & Hb).
    unfold busResult in Hb. rewrite Hdest in Hb.
    destruct (JSMap.get (VString busId) (busLocations st)) as [l|] eqn:Hget;
      injection Hb as <-; cbn [BusResult.route BusResult.location BusResult.eta
                               BusResult.id]; rewrite Hget; repeat split.
Qed.

Lemma search_result_details_witness :
  let results :=
    match search specialMath (Some (QString "city")) (Some (QString "airport"))
            exampleServer with
    | Ok results => results
    | Error _ _ => []
    end in
  let res := hd (RouteResult.mk "" "" [] []) results in
  In res results
  /\ exists route dest,
      In route (JSMap.values (busRoutes exampleServer))
      /\ routeMatches (QString "city") (QString "airport") route = Some true
      /\ lastStop route = Some dest
      /\ RouteResult.route_id res = Route.id route
      /\ RouteResult.route_name res = Route.name route
      /\ RouteResult.stops res = Route.stops route
      /\ map BusResult.id (RouteResult.buses res) = Route.buses route
      /\ forall bus, In bus (RouteResult.buses res) ->
           BusResult.route bus = Route.name route
           /\ BusResult.location bus
              = JSMap.get (VString (BusResult.id bus)) (busLocations exampleServer)
           /\ BusResult.eta bus
              = match BusResult.location bus with
                | Some l =>
                    calculateETA specialMath (Location.lat l) (Location.lon l)
                      (Stop.lat dest) (Stop.lon dest) (Location.speed l)
                | None => "Unknown"
                end.
Proof.
  intros results res.
  assert (Hin : In res results) by (left; reflexivity).
  split; [exact Hin|].
  apply (search_result_details specialMath "city" "airport" exampleServer results);
    [reflexivity | exact Hin].
Defined.

(* ================================================================== *)
(** ** The local address *)
(* ================================================================== *)

Lemma firstExternalIPv4_Some l address :
  firstExternalIPv4 l = Some address ->
  exists pre i post,
    l = (pre ++ i :: post)%list
    /\ NetInterface.family i = "IPv4" /\ NetInterface.internal i = false
    /\ NetInterface.address i = address
    /\ forall j, In j pre ->
         NetInterface.family j <> "IPv4" \/ NetInterface.internal j = true.
Proof.
  induction l as [|i l IH]; cbn [firstExternalIPv4]; [discriminate|].
  destruct (String.eqb_spec (NetInterface.family i) "IPv4") as [Hf | Hf].
  - destruct (NetInterface.internal i) eqn:Hi; cbn [negb andb].
    + intros H. destruct (IH H) as (pre & i' & post & -> & H1 & H2 & H3 & Hpre).
      exists (i :: pre), i', post. repeat split; auto.
      intros j [<- | Hj]; [now right | now apply Hpre].
    + intros [= <-]. exists [], i, l. repeat split; auto; try (intros j []).
  - cbn [andb]. intros H.
    destruct (IH H) as (pre & i' & post & -> & H1 & H2 & H3 & Hpre).
    exists (i :: pre), i', post. repeat split; auto.
    intros j [<- | Hj]; [now left | now apply Hpre].
Qed.

Lemma firstExternalIPv4_None l :
  firstExternalIPv4 l = None <->
  forall j, In j l -> NetInterface.family j <> "IPv4" \/ NetInterface.internal j = true.
Proof.
  induction l as [|i l IH]; cbn [firstExternalIPv4].
  - split; [intros _ j [] | reflexivity].
  - destruct (String.eqb_spec (NetInterface.family i) "IPv4") as [Hf | Hf].
    + destruct (NetInterface.internal i) eqn:Hi; cbn [negb andb].
      * rewrite IH. split.
        -- intros H j [<- | Hj]; [now right | now apply H].
        -- intros H j Hj. apply H. now right.
      * split; [discriminate|]. intros H. exfalso.
        destruct (H i (or_introl eq_refl)) as [H' | H']; congruence.
    + cbn [andb]. rewrite IH. split.
      * intros H j [<- | Hj]; [now left | now apply H].
      * intros H j Hj. apply H. now right.
Qed.

(** X15. [getLocalIPAddress] returns the address of the first network
    interface entry, in the order of the interface names and then of the
    entries of a name, that is IPv4 and not internal; it returns
    "localhost" when there is none (and else only when that is the
    address found). *)
Theorem getLocalIPAddress_first_external :
  forall interfaces,
    ((forall name l j, In (name, l) interfaces -> In j l ->
        NetInterface.family j <> "IPv4" \/ NetInterface.internal j = true)
     -> getLocalIPAddress interfaces = "localhost")
    /\ (forall pre name l post address,
          interfaces = (pre ++ (name, l) :: post)%list ->
          (forall name' l', In (name', l') pre -> firstExternalIPv4 l' = None) ->
          firstExternalIPv4 l = Some address ->
          getLocalIPAddress interfaces = address)
    /\ (getLocalIPAddress interfaces = "localhost"
        \/ exists name l j,
             In (name, l) interfaces /\ In j l
             /\ NetInterface.family j = "IPv4" /\ NetInterface.internal j = false
             /\ NetInterface.address j = getLocalIPAddress interfaces).
Proof.
  intros interfaces. split; [|split].
  - induction interfaces as [|[name l] rest IH]; intros H; [reflexivity|].
    cbn [getLocalIPAddress].
    assert (Hl : firstExternalIPv4 l = None).
    { apply firstExternalIPv4_None. intros j Hj. apply (H name l j); [now left | exact Hj]. }
    rewrite Hl. apply IH. intros name' l' j Hin Hj. apply (H name' l' j); [now right | exact Hj].
  - intros pre. revert interfaces.
    induction pre as [|[name0 l0] pre IH]; intros interfaces name l post address -> Hpre Hl.
    + cbn [app getLocalIPAddress]. now rewrite Hl.
    + cbn [app getLocalIPAddress]. rewrite (Hpre name0 l0 (or_introl eq_refl)).
      apply (IH _ name l post address eq_refl); [|exact Hl].
      intros name' l' Hin. apply (Hpre name' l'). now right.
  - induction interfaces as [|[name l] rest IH]; [now left|].
    cbn [getLocalIPAddress]. destruct (firstExternalIPv4 l) as [address|] eqn:Hl.
    + right. destruct (firstExternalIPv4_Some l address Hl)
        as (pre & i & post & -> & H1 & H2 & H3 & _).
      exists name, (pre ++ i :: post)%list, i.
      repeat split; auto; [now left | apply in_or_app; right; now left].
    + destruct IH as [IH | (name' & l' & j & Hin & Hj & H1 & H2 & H3)]; [now left|].
      right. exists name', l', j. repeat split; auto. now right.
Qed.

(* ================================================================== *)
(** ** More on distance and ETA *)
(* ================================================================== *)

Lemma round_aux_cases s m e l :
  binary_round_aux prec emax s m e l = S754_nan
  \/ binary_round_aux prec emax s m e l = S754_zero s
  \/ binary_round_aux prec emax s m e l = S754_infinity s
  \/ exists m' e', binary_round_aux prec emax s m e l = S754_finite s m' e'.
Proof.
  unfold binary_round_aux.
  destruct (shr_fexp prec emax m e l) as [mrs' e'].
  destruct (shr_fexp prec emax (round_nearest_even (shr_m mrs') (loc_of_shr_record mrs'))
              e' loc_Exact) as [mrs'' e''].
  destruct (shr_m mrs'') as [|p|p]; [now right; left | | now left].
  destruct (e'' <=? emax - prec).
  - right; right; right. now exists p, e''.
  - right; right; left. reflexivity.
Qed.

Lemma round_aux_not_positive m e l :
  gtb (binary_round_aux prec emax true m e l) n0 = false.
Proof.
  destruct (round_aux_cases true m e l) as [-> | [-> | [-> | (m' & e' & ->)]]];
    reflexivity.
Qed.

Lemma div_not_positive d speed :
  leb n0 d = true -> ltb speed n0 = true -> gtb (div d speed) n0 = false.
Proof.
  intros Hd Hs.
  destruct speed as [ss | [|] | | [|] ms es]; try discriminate Hs;
    destruct d as [sd | [|] | | [|] md ed]; try discriminate Hd; try reflexivity;
    try (destruct sd; reflexivity).
  unfold div, SFdiv.
  destruct (SFdiv_core_binary prec emax (Z.pos md) ed (Z.pos ms) es) as [[mz ez] lz].
  cbn [xorb]. apply round_aux_not_positive.
Qed.

Lemma mul60_not_positive q : gtb q n0 = false -> gtb (mul q n60) n0 = false.
Proof.
  intros Hq.
  destruct q as [s | [|] | | [|] m e]; try discriminate Hq; try reflexivity;
    try (destruct s; reflexivity).
  replace n60 with (S754_finite false 8444249301319680 (-47)) by reflexivity.
  unfold mul, SFmul. cbn [xorb]. apply round_aux_not_positive.
Qed.

Lemma round_not_positive x : gtb x n0 = false -> gtb (Math_round x) n0 = false.
Proof.
  intros Hx.
  destruct x as [s | [|] | | [|] m e]; try discriminate Hx; try exact Hx.
  unfold Math_round. destruct (Z.leb_spec 0 e) as [He | He]; [exact Hx|].
  cbn [cond_Zopp].
  assert (Hp : 0 < 2 ^ (- e)) by (apply pow2_pos; lia).
  remember (2 ^ (- e)) as d.
  assert (Hq : (2 * - Z.pos m + d) / (2 * d) < 1).
  { apply Z.div_lt_upper_bound; lia. }
  destruct ((2 * - Z.pos m + d) / (2 * d)) as [|p|p] eqn:E; [reflexivity | lia |].
  cbn [Z.eqb]. unfold ofZ. cbn [binary_normalize]. unfold binary_round.
  match goal with |- context [shl_align ?a ?b ?c] =>
    destruct (shl_align a b c) as [mz ez] end.
  apply round_aux_not_positive.
Qed.

(** X19. Without a positive speed there is no minute count: when the
    speed is at most 0 and the distance is not negative, the ETA is
    "Stopped" for a speed equal to 0 and "Arrived" for a negative one. *)
Theorem eta_needs_positive_speed M lat lon destLat destLon speed :
  leb speed n0 = true ->
  leb n0 (calculateDistance M lat lon destLat destLon) = true ->
  calculateETA M lat lon destLat destLon speed
  = if eqb speed n0 then "Stopped" else "Arrived".
Proof.
  intros Hs Hd. unfold calculateETA.
  destruct (eqb speed n0) eqn:He; [reflexivity|].
  assert (Hneg : ltb speed n0 = true).
  { unfold leb, SFleb in Hs. unfold eqb, SFeqb in He. unfold ltb, SFltb.
    destruct (SFcompare speed n0) as [[| |]|]; congruence. }
  unfold etaMinutes.
  now rewrite (round_not_positive _ (mul60_not_positive _ (div_not_positive _ _ Hd Hneg))).
Qed.

Lemma eta_needs_positive_speed_witness :
  calculateETA specialMath zero zero zero n180 (ofZ (-60))
  = if eqb (ofZ (-60)) n0 then "Stopped" else "Arrived".
Proof.
  apply (eta_needs_positive_speed specialMath zero zero zero n180 (ofZ (-60)));
    vm_compute; reflexivity.
Defined.

Lemma mul_self_finite c :
  valid c = true -> leb (SFabs c) n1 = true ->
  mul c c = zero \/ exists m e, mul c c = S754_finite false m e.
Proof.
  intros Hv Hle. rewrite n1_eq in Hle.
  destruct c as [s | s | | s m e]; try discriminate Hle.
  - left. destruct s; reflexivity.
  - unfold valid, valid_binary in Hv. assert (Hb := Hv).
    unfold bounded, canonical_mantissa in Hv.
    apply andb_true_iff in Hv as [Hcan _]. apply Z.eqb_eq in Hcan.
    rewrite fexp_eq in Hcan.
    destruct (digits2_pos_spec m) as [Hdlo Hdhi].
    remember (Zpos (digits2_pos m)) as d eqn:Hd.
    assert (Hdpos : 0 < d) by (subst d; lia).
    assert (Hord : e < -52 \/ (e = -52 /\ Zpos m <= Zpos 4503599627370496)).
    { cbn [SFabs] in Hle. unfold leb, SFleb, SFcompare in Hle.
      destruct (Z.compare_spec e (-52)) as [-> | He | He]; try discriminate Hle;
        [right | left; lia].
      split; [reflexivity|].
      rewrite (Pos.compare_cont_spec m 4503599627370496 Eq) in Hle.
      destruct (Pos.compare_spec m 4503599627370496) as [-> | Hc | Hc];
        cbn [Pos.switch_Eq] in Hle; try discriminate Hle.
      - apply Z.le_refl.
      - apply Pos2Z.pos_lt_pos in Hc. apply Z.lt_le_incl. exact Hc. }
    assert (Hb1 : bounded prec emax 4503599627370496 (-52) = true) by reflexivity.
    assert (Hval := order_le_val _ _ _ _ Hb Hb1 Hord).
    assert (He : e <= -52) by lia.
    apply (le_val_at _ _ _ _ e) in Hval; [| lia | lia].
    rewrite Z.sub_diag in Hval. change (2 ^ 0) with 1 in Hval.
    unfold mul, SFmul. rewrite xorb_nilpotent.
    assert (Hbelow : below false 4503599627370496 (-52)
                       (binary_round_aux prec emax false (Z.pos (m * m)) (e + e) loc_Exact)).
    { apply round_aux_below; [| assumption |].
      - rewrite fexp_eq.
        destruct (Z.eq_dec e (-1074)) as [-> | Hne]; [lia|].
        assert (Hd53 : d = 53) by lia. rewrite Hd53 in Hdlo.
        assert (105 <= Zpos (digits2_pos (m * m))).
        { apply digits2_pos_ge. rewrite Pos2Z.inj_mul.
          replace (2 ^ (105 - 1)) with (2 ^ (53 - 1) * 2 ^ (53 - 1)) by reflexivity.
          apply Z.mul_le_mono_nonneg; try assumption; apply Z.lt_le_incl, pow2_pos; lia. }
        lia.
      - apply (le_val_at _ _ _ _ (e + e)); [lia | lia |].
        rewrite Z.sub_diag. change (2 ^ 0) with 1. rewrite Pos2Z.inj_mul.
        replace (-52 - (e + e)) with (52 + ((-52 - e) + (-52 - e))) by lia.
        rewrite !pow2_add by lia.
        assert (Hp := pow2_pos (-52 - e) ltac:(lia)).
        remember (2 ^ (-52 - e)) as P. change (2 ^ 52) with (Z.pos 4503599627370496).
        remember (Z.pos 4503599627370496) as K.
        assert (HK : 0 < K) by (subst K; lia).
        assert (H1 : Z.pos m * Z.pos m <= (K * P) * (K * P)).
        { apply Z.mul_le_mono_nonneg; lia. }
        rewrite Z.mul_1_r. replace (K * (K * (P * P))) with ((K * P) * (K * P)) by ring.
        exact H1. }
    destruct Hbelow as [-> | (m' & e' & -> & _)]; [now left | right; eauto].
Qed.

(** X20. A bus standing on its destination has arrived: when the
    coordinates are finite, and [Math.sin] and [Math.atan2] map +0 (with
    1) to +0 as the language requires, and the cosine of the latitude is
    at most 1 in magnitude, the distance from a point to itself is +0;
    the ETA is then "Stopped" for a speed equal to 0 and "Arrived" for
    every other speed. *)
Theorem distance_to_self M lat lon speed :
  isFinite lat = true ->
  isFinite lon = true ->
  Math_sin M zero = zero ->
  Math_atan2 M zero n1 = zero ->
  valid (Math_cos M (div (mul lat Math_PI) n180)) = true ->
  leb (SFabs (Math_cos M (div (mul lat Math_PI) n180))) n1 = true ->
  calculateDistance M lat lon lat lon = zero
  /\ calculateETA M lat lon lat lon speed
     = if eqb speed n0 then "Stopped" else "Arrived".
Proof.
  intros Hlat Hlon Hsin Hatan Hv Hle.
  assert (Hsub : forall x, isFinite x = true -> sub x x = zero).
  { intros x Hx. destruct x as [s | s | | s m e]; try discriminate Hx.
    - destruct s; reflexivity.
    - unfold sub, SFsub. rewrite Z.min_id.
      destruct (shl_align m e e) as [mz ez]. cbn [fst].
      now rewrite Z.sub_diag. }
  assert (Hd : calculateDistance M lat lon lat lon = zero).
  { unfold calculateDistance. rewrite (Hsub lat Hlat), (Hsub lon Hlon).
    change (div (div (mul zero Math_PI) n180) n2) with zero. rewrite Hsin.
    change (mul zero zero) with zero.
    destruct (mul_self_finite _ Hv Hle) as [-> | (m & e & ->)].
    - change (sqrt (add zero (mul (mul zero zero) zero))) with zero.
      change (sqrt (sub n1 (add zero (mul (mul zero zero) zero)))) with n1.
      rewrite Hatan. reflexivity.
    - change (mul (mul (S754_finite false m e) zero) zero) with zero.
      change (sqrt (add zero zero)) with zero.
      change (sqrt (sub n1 (add zero zero))) with n1.
      rewrite Hatan. reflexivity. }
  split; [exact Hd|].
  unfold calculateETA, etaMinutes. rewrite Hd.
  destruct (eqb speed n0) eqn:He; [reflexivity|].
  destruct speed as [s | s | | s m e]; try discriminate He;
    try (destruct s; reflexivity); reflexivity.
Qed.

Lemma distance_to_self_witness :
  calculateDistance oddMath zero n180 zero n180 = zero
  /\ calculateETA oddMath zero n180 zero n180 (ofZ 40)
     = if eqb (ofZ 40) n0 then "Stopped" else "Arrived".
Proof.
  apply (distance_to_self oddMath zero n180 (ofZ 40)); reflexivity.
Defined.

Lemma round_aux_opp s m e l :
  binary_round_aux prec emax (negb s) m e l
  = SFopp (binary_round_aux prec emax s m e l).
Proof.
  unfold binary_round_aux.
  destruct (shr_fexp prec emax m e l) as [mrs' e'].
  destruct (shr_fexp prec emax (round_nearest_even (shr_m mrs') (loc_of_shr_record mrs'))
              e' loc_Exact) as [mrs'' e''].
  destruct (shr_m mrs'') as [|p|p]; try reflexivity.
  destruct (e'' <=? emax - prec); reflexivity.
Qed.

Lemma opp_involutive x : SFopp (SFopp x) = x.
Proof. destruct x as [[|] | [|] | | [|] m e]; reflexivity. Qed.

Lemma mul_comm x y : mul x y = mul y x.
Proof.
  destruct x as [sx | sx | | sx mx ex]; destruct y as [sy | sy | | sy my ey];
    cbn; try reflexivity; try (now rewrite xorb_comm).
  unfold mul, SFmul. now rewrite xorb_comm, Pos.mul_comm, Z.add_comm.
Qed.

Lemma mul_opp_l x y : mul (SFopp x) y = SFopp (mul x y).
Proof.
  destruct x as [sx | sx | | sx mx ex]; destruct y as [sy | sy | | sy my ey];
    cbn; try reflexivity; try (now destruct sx, sy).
  unfold mul, SFmul. rewrite <- round_aux_opp. now rewrite negb_xorb_l.
Qed.

Lemma mul_opp_opp x y : mul (SFopp x) (SFopp y) = mul x y.
Proof.
  rewrite mul_opp_l, (mul_comm x (SFopp y)), mul_opp_l, (mul_comm y x).
  apply opp_involutive.
Qed.

Lemma div_opp_l x y : div (SFopp x) y = SFopp (div x y).
Proof.
  destruct x as [sx | sx | | sx mx ex]; destruct y as [sy | sy | | sy my ey];
    cbn; try reflexivity; try (now destruct sx, sy).
  unfold div, SFdiv.
  destruct (SFdiv_core_binary prec emax (Z.pos mx) ex (Z.pos my) ey) as [[mz ez] lz].
  rewrite <- round_aux_opp. now rewrite negb_xorb_l.
Qed.

Lemma binary_round_opp s m e :
  binary_round prec emax (negb s) m e = SFopp (binary_round prec emax s m e).
Proof.
  unfold binary_round.
  destruct (shl_align m e (fexp prec emax (Z.pos (digits2_pos m) + e))) as [mz ez].
  apply round_aux_opp.
Qed.

(** Swapping the operands of a subtraction negates the result, or
    leaves it +0. *)
Lemma sub_swap x y :
  sub y x = SFopp (sub x y) \/ (sub x y = zero /\ sub y x = zero).
Proof.
  destruct x as [sx | sx | | sx mx ex]; destruct y as [sy | sy | | sy my ey];
    try (left; reflexivity);
    try (destruct sx; left; reflexivity);
    try (destruct sy; left; reflexivity);
    try (destruct sx, sy; ((left; reflexivity) || (right; split; reflexivity)); fail).
  unfold sub, SFsub. rewrite (Z.min_comm ey ex).
  remember (cond_Zopp sx (Z.pos (fst (shl_align mx ex (Z.min ex ey))))) as A.
  remember (cond_Zopp sy (Z.pos (fst (shl_align my ey (Z.min ex ey))))) as B.
  replace (B - A) with (- (A - B)) by lia.
  destruct (A - B) as [|p|p]; cbn [Z.opp binary_normalize].
  - right. split; reflexivity.
  - left. apply (binary_round_opp false).
  - left. rewrite <- (binary_round_opp true). reflexivity.
Qed.

(** X21. The distance is symmetric: with a sine that is odd, as that
    of every implementation is, the distance from a to b is the distance
    from b to a, bit for bit. *)
Theorem calculateDistance_symmetric M lat1 lon1 lat2 lon2 :
  (forall z, Math_sin M (SFopp z) = SFopp (Math_sin M z)) ->
  calculateDistance M lat1 lon1 lat2 lon2 = calculateDistance M lat2 lon2 lat1 lon1.
Proof.
  intros Hodd.
  assert (Hsq : forall x y,
             let h d := Math_sin M (div (div (mul d Math_PI) n180) n2) in
             forall u, mul (mul u (h (sub y x))) (h (sub y x))
                       = mul (mul u (h (sub x y))) (h (sub x y))).
  { intros x y h u. destruct (sub_swap x y) as [-> | [-> ->]]; [|reflexivity].
    unfold h. rewrite mul_opp_l, !div_opp_l, Hodd.
    rewrite (mul_comm u (SFopp _)), mul_opp_l, mul_opp_opp.
    now rewrite (mul_comm _ u). }
  assert (Hsq1 : forall x y,
             let h d := Math_sin M (div (div (mul d Math_PI) n180) n2) in
             mul (h (sub y x)) (h (sub y x)) = mul (h (sub x y)) (h (sub x y))).
  { intros x y h. destruct (sub_swap x y) as [-> | [-> ->]]; [|reflexivity].
    unfold h. rewrite mul_opp_l, !div_opp_l, Hodd. apply mul_opp_opp. }
  unfold calculateDistance. cbv zeta in Hsq, Hsq1.
  rewrite (Hsq1 lat1 lat2), (Hsq lon1 lon2).
  now rewrite (mul_comm (Math_cos M (div (mul lat1 Math_PI) n180))).
Qed.

Lemma calculateDistance_symmetric_witness :
  calculateDistance oddMath zero zero zero n180
  = calculateDistance oddMath zero n180 zero zero.
Proof.
  apply (calculateDistance_symmetric oddMath zero zero zero n180).
  intros z. unfold oddMath. cbn [Math_sin].
  destruct z as [[|] | [|] | | s m e]; try reflexivity.
  cbn [SFopp].
  destruct (SFeqb (S754_finite false m e) (div Math_PI n2)); reflexivity.
Defined.

(* ================================================================== *)
(** ** The pages and the server *)
(* ================================================================== *)

(** The copy of the ETA computation in the buses page returns, for all
    arguments, the string that [calculateETA] of the server returns. *)
Lemma page_eta_is_server_eta :
  forall M lat1 lon1 lat2 lon2 speed,
    pageCalculateETA M lat1 lon1 lat2 lon2 speed
    = calculateETA M lat1 lon1 lat2 lon2 speed.
Proof. reflexivity. Qed.

Lemma find_values (b : string) (m : JSMap.t value Location.t) :
  Forall (fun entry => Location.device_id (snd entry) = fst entry) m ->
  find (fun loc => value_eqb (Location.device_id loc) (VString b)) (JSMap.values m)
  = JSMap.get (VString b) m.
Proof.
  induction m as [|[k loc] m IH]; [reflexivity|].
  intros H. inversion H as [|? ? Hk Hm]; subst. cbn [fst snd] in Hk.
  unfold JSMap.values in *. cbn [map snd find JSMap.get]. rewrite Hk.
  change (key_eqb k (VString b)) with (value_eqb k (VString b)).
  destruct (value_eqb k (VString b)); [reflexivity | now apply IH].
Qed.

Lemma reachable_entries st :
  reachable st ->
  Forall (fun entry => Location.device_id (snd entry) = fst entry) (busLocations st).
Proof.
  intros Hreach. destruct (reachable_keys st Hreach) as [Hnd Hid].
  apply Forall_forall. intros [k loc] Hin. cbn [fst snd].
  apply (Hid k loc). now apply In_get.
Qed.

Lemma reachable_run st es :
  reachable st -> (forall e, In e es -> eventOk e) -> reachable (run st es).
Proof.
  revert st. induction es as [|e es IH]; intros st Hreach Hok; [exact Hreach|].
  unfold run in *. cbn [fold_left]. apply IH.
  - apply reachable_step; [exact Hreach | apply Hok; now left].
  - intros e' Hin. apply Hok. now right.
Qed.

Lemma traverse_chain {A B C : Type} (f : A -> option B) (g : B -> option C)
    (h : A -> option C) (l : list A) (ys : list B) :
  traverse f l = Some ys ->
  (forall x y, In x l -> f x = Some y -> g y = h x) ->
  traverse g ys = traverse h l.
Proof.
  revert ys. induction l as [|x l IH]; cbn [traverse]; intros ys H Hgh.
  - now injection H as <-.
  - destruct (f x) as [y|] eqn:Hy; [|discriminate].
    destruct (traverse f l) as [ys'|] eqn:Hys; [|discriminate].
    injection H as <-. cbn [traverse].
    rewrite (Hgh x y (or_introl eq_refl) Hy), (IH ys' eq_refl); [reflexivity|].
    intros x' y' Hin. apply Hgh. now right.
Qed.

Lemma refreshBus_fresh M st st' route dest busId bus :
  Forall (fun entry => Location.device_id (snd entry) = fst entry) (busLocations st') ->
  (JSMap.get (VString busId) (busLocations st) <> None ->
   JSMap.get (VString busId) (busLocations st') <> None) ->
  lastStop route = Some dest ->
  busResult M st route busId = Some bus ->
  refreshBus M (getLocations st') (Route.stops route) bus = busResult M st' route busId.
Proof.
  intros Hinv Hkept Hdest Hbus. unfold busResult in *. rewrite Hdest in *.
  unfold refreshBus, getLocations.
  assert (Hid : BusResult.id bus = busId /\ BusResult.route bus = Route.name route).
  { destruct (JSMap.get (VString busId) (busLocations st)); injection Hbus as <-;
      now split. }
  destruct Hid as [Hid Hname]. rewrite Hid, (find_values busId _ Hinv).
  destruct (JSMap.get (VString busId) (busLocations st')) as [l'|] eqn:E'.
  - unfold lastStop in Hdest. rewrite Hdest, Hname. reflexivity.
  - destruct (JSMap.get (VString busId) (busLocations st)) as [l|] eqn:E.
    + exfalso. apply Hkept; [discriminate | reflexivity].
    + symmetry. exact Hbus.
Qed.

(** X22. The refresh of the buses page shows what a new search would
    return.  Take the results of a search in a reachable state, let the
    server run through any ingests and ticks, and let the page refresh
    those results with the listing of the new state: the refreshed
    routes are exactly the reply of the same search in the new state.
    (The listing is taken as the page receives it, which is as the
    server holds it when its numbers are finite and not -0.) *)
Theorem refresh_agrees_with_search M from to st es results :
  reachable st ->
  (forall e, In e es -> eventOk e) ->
  forallb locationJsonExact (getLocations (run st es)) = true ->
  search M (Some (QString from)) (Some (QString to)) st = Ok results ->
  exists results',
    updateBusLocations M (getLocations (run st es)) results = Some results'
    /\ search M (Some (QString from)) (Some (QString to)) (run st es) = Ok results'.
Proof.
  intros Hreach Hok _ Hsearch.
  assert (Hreach' := reachable_run st es Hreach Hok).
  assert (Hinv := reachable_entries _ Hreach').
  assert (Hkept : forall busId : value,
             JSMap.get busId (busLocations st) <> None ->
             JSMap.get busId (busLocations (run st es)) <> None).
  { intros busId Hget. rewrite get_In_keys in *.
    destruct (run_keys st es) as [more ->]. apply in_or_app. now left. }
  rewrite search_strings in *. rewrite (run_routes st es).
  destruct (String.eqb from "" || String.eqb to ""); [discriminate|].
  destruct (traverse (routeResult M st)
              (filter (stringsMatch from to) (JSMap.values (busRoutes st))))
    as [rs|] eqn:Htr; [|discriminate].
  injection Hsearch as ->.
  assert (Hchain : traverse (refreshRoute M (getLocations (run st es))) results
                   = traverse (routeResult M (run st es))
                       (filter (stringsMatch from to) (JSMap.values (busRoutes st)))).
  { apply (traverse_chain _ _ _ _ _ Htr). intros route res Hin Hres.
    apply filter_In in Hin as [_ Hm].
    destruct (lastStop_some route (routeMatches_stops _ _ _ Hm)) as [dest Hdest].
    unfold routeResult in *.
    destruct (traverse (busResult M st route) (Route.buses route)) as [bs|] eqn:Hbs;
      [|discriminate].
    injection Hres as <-. unfold refreshRoute.
    cbn [RouteResult.stops RouteResult.buses RouteResult.route_id RouteResult.route_name].
    rewrite (traverse_chain _ (refreshBus M (getLocations (run st es)) (Route.stops route))
               (busResult M (run st es) route) _ _ Hbs); [reflexivity|].
    intros busId bus _ Hbus.
    apply (refreshBus_fresh M st (run st es) route dest busId bus);
      auto. }
  unfold updateBusLocations. rewrite Hchain.
  destruct (traverse_total (routeResult M (run st es))
              (filter (stringsMatch from to) (JSMap.values (busRoutes st))))
    as (results' & Hres' & _).
  { intros route Hin. apply filter_In in Hin as [_ Hm].
    apply routeResult_total. eapply routeMatches_stops; eauto. }
  exists results'. now rewrite Hres'.
Qed.

Lemma refresh_agrees_with_search_witness :
  let es := [Ingest 2000 (mkBody (VString "BUS_101") (VString "11.16") (VString "77.6")
                            (VNumber (ofZ 35)));
             Tick (zeroDraws 10000)] in
  let results :=
    match search oddMath (Some (QString "city")) (Some (QString "airport"))
            exampleServer with
    | Ok results => results
    | Error _ _ => []
    end in
  exists results',
    updateBusLocations oddMath (getLocations (run exampleServer es)) results
    = Some results'
    /\ search oddMath (Some (QString "city")) (Some (QString "airport"))
         (run exampleServer es) = Ok results'.
Proof.
  intros es results.
  apply (refresh_agrees_with_search oddMath "city" "airport" exampleServer es results).
  - apply reachable_start.
  - intros e [<- | [<- | []]]; [reflexivity | intros busId; reflexivity].
  - vm_compute. reflexivity.
  - reflexivity.
Defined.

Lemma trim_empty s : trim s <> "" -> s <> "".
Proof. intros H ->. now apply H. Qed.

(** X23. A query that passes the checks of the search page is never
    refused by the server: when [handleSearch] shows no error of its
    own, the two places differ in lower case and the search it sends is
    answered with status 200, in every state of the server. *)
Theorem page_query_is_accepted M from to st :
  handleSearchError from to = None ->
  toLowerCase from <> toLowerCase to
  /\ exists results, search M (Some (QString from)) (Some (QString to)) st = Ok results.
Proof.
  unfold handleSearchError. intros H.
  destruct (String.eqb_spec (trim from) "") as [|Hf]; [discriminate|].
  destruct (String.eqb_spec (trim to) "") as [|Ht]; [discriminate|].
  cbn [orb] in H.
  destruct (String.eqb_spec (toLowerCase from) (toLowerCase to)) as [|Hne];
    [discriminate|].
  split; [exact Hne|].
  destruct (search_filters M from to st (trim_empty _ Hf) (trim_empty _ Ht))
    as (results & Hres & _).
  now exists results.
Qed.

Lemma page_query_is_accepted_witness :
  toLowerCase "City Center" <> toLowerCase "airport"
  /\ exists results,
       search oddMath (Some (QString "City Center")) (Some (QString "airport"))
         exampleServer = Ok results.
Proof.
  apply (page_query_is_accepted oddMath "City Center" "airport" exampleServer).
  reflexivity.
Defined.

Lemma NoDup_firstn {A : Type} (n : nat) (l : list A) : NoDup l -> NoDup (firstn n l).
Proof.
  intros H. rewrite <- (firstn_skipn n l) in H. now apply NoDup_app_remove_r in H.
Qed.

Lemma NoDup_map_filter {A B : Type} (g : A -> B) (f : A -> bool) (l : list A) :
  NoDup (map g l) -> NoDup (map g (filter f l)).
Proof.
  induction l as [|x l IH]; cbn [map filter]; intros H; [constructor|].
  inversion H as [|? ? Hx Hl]; subst.
  destruct (f x); [|now apply IH].
  cbn [map]. constructor; [|now apply IH].
  intros Hin. apply Hx. apply in_map_iff in Hin as (y & Hy & Hin).
  apply filter_In in Hin as [Hin _]. rewrite <- Hy. now apply in_map.
Qed.

(** X24. The list of recent searches stays short and free of repeats.
    For every list, after [saveRecentSearch] the list has at most five
    entries, the search just made is the first of them, and every other
    entry was in the list before and is for another pair of places; and
    if no pair of places occurred twice before, none does after. *)
Theorem recent_searches_stay_unique :
  forall now from to recentSearches,
    let updated := saveRecentSearch now from to recentSearches in
    (List.length updated <= 5)%nat
    /\ hd_error updated = Some (RecentSearch.mk from to now)
    /\ (forall search, In search (tl updated) ->
          In search recentSearches /\ searchPair search <> (from, to))
    /\ (NoDup (map searchPair recentSearches) -> NoDup (map searchPair updated)).
Proof.
  intros now from to recentSearches updated. subst updated. unfold saveRecentSearch.
  set (other := fun search => negb (String.eqb (RecentSearch.from search) from
                                    && String.eqb (RecentSearch.to search) to)).
  assert (Hother : forall search, other search = true -> searchPair search <> (from, to)).
  { intros search H [= Hf Ht]. unfold other in H.
    rewrite Hf, Ht, !String.eqb_refl in H. discriminate H. }
  split; [apply firstn_le_length|]. split; [reflexivity|]. split.
  - cbn [firstn tl]. intros search Hin.
    assert (Hin' : In search (filter other recentSearches)).
    { rewrite <- (firstn_skipn 4 (filter other recentSearches)).
      apply in_or_app. now left. }
    apply filter_In in Hin' as [Hin' Hs]. split; [exact Hin' | now apply Hother].
  - intros Hnd. rewrite <- firstn_map. apply NoDup_firstn. cbn [map]. constructor.
    + intros Hin. apply in_map_iff in Hin as (search & Hpair & Hin).
      apply filter_In in Hin as [_ Hs]. now apply (Hother search Hs).
    + now apply NoDup_map_filter.
Qed.

Lemma recent_searches_stay_unique_witness :
  let recentSearches :=
    [RecentSearch.mk "a" "b" 1; RecentSearch.mk "city" "airport" 2;
     RecentSearch.mk "c" "d" 3; RecentSearch.mk "e" "f" 4;
     RecentSearch.mk "g" "h" 5; RecentSearch.mk "i" "j" 6] in
  let updated := saveRecentSearch 7 "city" "airport" recentSearches in
  (List.length updated <= 5)%nat
  /\ hd_error updated = Some (RecentSearch.mk "city" "airport" 7)
  /\ (forall search, In search (tl updated) ->
        In search recentSearches /\ searchPair search <> ("city", "airport"))
  /\ (NoDup (map searchPair recentSearches) -> NoDup (map searchPair updated)).
Proof.
  intros recentSearches.
  apply (recent_searches_stay_unique 7 "city" "airport" recentSearches).
Defined.

(* ================================================================== *)
(** ** Ingests whose id is not a string *)
(* ================================================================== *)




